(** * Signal synthesis and window features: a shallow embedding

    The Python sources embedded here are
    - [csv_tf/train_features.py]: [extract_features_from_sequence],
      [load_csv_data_with_features] and the report printed after
      loading;
    - [workshops/nicegui/signal_visualizer.py]: [add_noise],
      [generate_sine_wave], [generate_square_wave], [apply_filter],
      [calculate_snr], [calculate_statistics], the noise measured by
      [update_plots], the limit of the frequency axis, [find_free_port]
      and the choice of the port;
    - [python-matplotlib/example.py]: [create_sine_wave], [create_noise],
      [add_signal_and_noise] and the signals of [main];
    - [codes/chapter01.py]: the channel expressions
      [base + amplitude * np.sin(rate * time) + np.random.normal(0, std, n)]
      and the four sensor channels drawn in a row.

    NumPy itself is not part of the repository.  Its array functions are
    written out below from their documented behaviour, over a scalar
    interface with two instances: IEEE binary64 (what the scripts run on,
    Rocq's primitive floats) and the real numbers (the exact arithmetic in
    which the specification phrases its values).  The pseudo-random
    generator, the sine, the decimal logarithm and the sockets of the
    operating system are parameters of the development. *)

From Stdlib Require Import ZArith Reals Lra Floats.
From stdpp Require Import base list strings gmap sorting pretty.

Local Open Scope string_scope.
Local Open Scope list_scope.
Local Open Scope nat_scope.

(** ** Python exceptions and the result monad *)

Inductive exn : Type :=
  | ValueError (msg : string)
  | KeyError (msg : string)
  | OSError (msg : string).

Inductive result (A : Type) : Type :=
  | Ok (a : A)
  | Raise (e : exn).
Arguments Ok {A} a.
Arguments Raise {A} e.

Global Instance result_ret : MRet result := λ A a, Ok a.
Global Instance result_bind : MBind result := λ A B k m,
  match m with
  | Ok a => k a
  | Raise e => Raise e
  end.

Definition is_ok {A} (r : result A) : bool :=
  match r with Ok _ => true | Raise _ => false end.

(** A [for] loop whose body may raise: the accumulator is threaded through
    the items from left to right and the first exception ends the loop. *)
Fixpoint for_each {A B} (body : A → B → result A) (items : list B) (acc : A)
  : result A :=
  match items with
  | [] => Ok acc
  | b :: items' => acc' ← body acc b; for_each body items' acc'
  end.

(** ** Scalars *)

Class Scalar (F : Type) := {
  f_zero : F;
  f_add : F → F → F;
  f_sub : F → F → F;
  f_mul : F → F → F;
  f_div : F → F → F;
  f_sqrt : F → F;
  f_of_nat : nat → F;
  f_leb : F → F → bool;
  f_ltb : F → F → bool;
  f_isnan : F → bool;
  f_signbit : F → bool
}.

(** binary64, the dtype of every array in the scripts. *)
Definition float_of_nat (n : nat) : float :=
  PrimFloat.of_uint63 (Uint63.of_Z (Z.of_nat n)).

Global Instance float_scalar : Scalar float := {|
  f_zero := 0%float;
  f_add := PrimFloat.add;
  f_sub := PrimFloat.sub;
  f_mul := PrimFloat.mul;
  f_div := PrimFloat.div;
  f_sqrt := PrimFloat.sqrt;
  f_of_nat := float_of_nat;
  f_leb := PrimFloat.leb;
  f_ltb := PrimFloat.ltb;
  f_isnan := PrimFloat.is_nan;
  f_signbit := PrimFloat.get_sign
|}.

(** Exact arithmetic: no rounding and no NaN. *)
Definition Rleb (x y : R) : bool := if Rle_dec x y then true else false.
Definition Rltb (x y : R) : bool := if Rlt_dec x y then true else false.

Global Instance R_scalar : Scalar R := {|
  f_zero := 0%R;
  f_add := Rplus;
  f_sub := Rminus;
  f_mul := Rmult;
  f_div := Rdiv;
  f_sqrt := R_sqrt.sqrt;
  f_of_nat := INR;
  f_leb := Rleb;
  f_ltb := Rltb;
  f_isnan := λ _, false;
  f_signbit := λ x, Rltb x 0
|}.

(** ** NumPy array functions *)

Section numpy.
Context {F : Type} `{Scalar F}.

(** [np.add.reduce] on a one-dimensional array: the additive identity
    followed by the elements in index order.  (NumPy regroups additions
    block-wise once an array has 8 or more elements; the grouping is
    immaterial in exact arithmetic.) *)
Definition np_sum (a : list F) : F := foldl f_add f_zero a.

(** [np.mean]: the sum divided by the element count. *)
Definition np_mean (a : list F) : F :=
  f_div (np_sum a) (f_of_nat (length a)).

(** [x ** 2] and [np.multiply(x, x)], element-wise. *)
Definition np_square (a : list F) : list F := map (λ x, f_mul x x) a.

(** [np.var(a, ddof)]: deviations from the mean, squared, summed and
    divided by [max(N - ddof, 0)]. *)
Definition np_var (ddof : nat) (a : list F) : F :=
  let arrmean := np_mean a in
  let x := map (λ v, f_sub v arrmean) a in
  let x := np_square x in
  f_div (np_sum x) (f_of_nat (length a - ddof)).

(** [np.std(a, ddof)]. *)
Definition np_std (ddof : nat) (a : list F) : F := f_sqrt (np_var ddof a).

(** The [minimum] and [maximum] ufuncs propagate NaN. *)
Definition np_minimum (x y : F) : F :=
  if f_leb x y || f_isnan x then x else y.
Definition np_maximum (x y : F) : F :=
  if f_leb y x || f_isnan x then x else y.

(** [np.min] and [np.max]: a reduction without identity, so an empty
    array is an error. *)
Definition np_min (a : list F) : result F :=
  match a with
  | [] => Raise (ValueError
      "zero-size array to reduction operation minimum which has no identity")
  | x :: a' => Ok (foldl np_minimum x a')
  end.
Definition np_max (a : list F) : result F :=
  match a with
  | [] => Raise (ValueError
      "zero-size array to reduction operation maximum which has no identity")
  | x :: a' => Ok (foldl np_maximum x a')
  end.

(** Element-wise sum of two arrays of one length. *)
Definition np_add (a b : list F) : list F := zip_with f_add a b.
End numpy.

(** ** Two-dimensional arrays *)

Record ndarray (F : Type) := NdArray {
  shape0 : nat;            (* time steps *)
  shape1 : nat;            (* axes *)
  rows : list (list F)
}.
Arguments NdArray {F} shape0 shape1 rows.
Arguments shape0 {F} _.
Arguments shape1 {F} _.
Arguments rows {F} _.

(** The array invariant: [shape0] rows of [shape1] entries each. *)
Definition rectangular {F} (a : ndarray F) : Prop :=
  length (rows a) = shape0 a ∧ Forall (λ r, length r = shape1 a) (rows a).

Definition rectangularb {F} (a : ndarray F) : bool :=
  (length (rows a) =? shape0 a)%nat
  && forallb (λ r, (length r =? shape1 a)%nat) (rows a).

(** The array of a list of rows of [n] columns. *)
Definition array_of_rows {F} (n : nat) (rs : list (list F)) : ndarray F :=
  NdArray (length rs) n rs.

(** [sequence[:, axis_idx]] *)
Definition column {F} `{Scalar F} (a : ndarray F) (axis_idx : nat) : list F :=
  map (λ r, nth axis_idx r f_zero) (rows a).

(** ** Feature extraction ([train_features.py]) *)

Section extract.
Context {F : Type} `{Scalar F}.

(** The body of the loop over [range(sequence.shape[1])]: six appends. *)
Definition extract_axis (sequence : ndarray F) (features : list F)
    (axis_idx : nat) : result (list F) :=
  let axis_data := column sequence axis_idx in
  let features := features ++ [np_mean axis_data] in
  let features := features ++ [np_std 0 axis_data] in
  mn ← np_min axis_data;
  let features := features ++ [mn] in
  mx ← np_max axis_data;
  let features := features ++ [mx] in
  let features := features ++ [f_sqrt (np_mean (np_square axis_data))] in
  mx' ← np_max axis_data;
  mn' ← np_min axis_data;
  let features := features ++ [f_sub mx' mn'] in
  Ok features.

Definition extract_features_from_sequence (sequence : ndarray F)
  : result (list F) :=
  for_each (extract_axis sequence) (seq 0 (shape1 sequence)) [].
End extract.

(** ** The global generator of [np.random] *)

(** A computation on the process-wide generator: it returns a value or
    raises, and leaves the generator in a new state either way. *)
Definition np_random (rng A : Type) : Type := rng → result A * rng.

Global Instance np_random_ret {rng} : MRet (np_random rng) :=
  λ A a g, (Ok a, g).
Global Instance np_random_bind {rng} : MBind (np_random rng) :=
  λ A B k m g,
    match m g with
    | (Ok a, g') => k a g'
    | (Raise e, g') => (Raise e, g')
    end.

Section random.
Context {F : Type} `{Scalar F}.
Context {rng : Type}.
(** The generator proper (MT19937 and its Gaussian sampler) and the
    sine of the C library are outside the repository. *)
Variable init_genrand : Z → rng.
Variable legacy_gauss : rng → F * rng.
Variable np_sin : F → F.

(** [np.random.seed(seed)] for an integer seed. *)
Definition np_random_seed (seed : Z) : np_random rng unit := λ g,
  if bool_decide (0 ≤ seed < 2 ^ 32)%Z then (Ok (), init_genrand seed)
  else (Raise (ValueError "Seed must be between 0 and 2**32 - 1"), g).

(** [size] successive standard-normal variates. *)
Fixpoint gauss_fill (size : nat) (g : rng) : list F * rng :=
  match size with
  | O => ([], g)
  | S size' =>
      let '(z, g1) := legacy_gauss g in
      let '(zs, g2) := gauss_fill size' g1 in
      (z :: zs, g2)
  end.

(** [np.random.normal(loc, scale, size)]: [scale] is checked to be
    non-negative, then each variate is [loc + scale * z]. *)
Definition np_random_normal (loc scale : F) (size : nat)
  : np_random rng (list F) := λ g,
  if negb (f_isnan scale) && f_signbit scale
  then (Raise (ValueError "scale < 0"), g)
  else
    let '(zs, g') := gauss_fill size g in
    (Ok (map (λ z, f_add loc (f_mul scale z)) zs), g').

(** [add_noise] of [signal_visualizer.py]. *)
Definition add_noise (signal : list F) (noise_level : F) (seed : option Z)
  : np_random rng (list F) :=
  (match seed with
   | Some s => np_random_seed s
   | None => mret ()
   end) ≫= λ _,
  noise ← np_random_normal f_zero noise_level (length signal);
  mret (np_add signal noise).

(** [create_noise] of [example.py]. *)
Definition create_noise (size : nat) (noise_level : F) (seed : Z)
  : np_random rng (list F) :=
  np_random_seed seed ≫= λ _,
  np_random_normal f_zero noise_level size.

(** One channel of [chapter01.py], as in
    [vibration = 1 + 0.1 * np.sin(2*time) + np.random.normal(0, 0.05, len(time))]. *)
Definition channel (base amplitude rate noise_std : F) (time : list F)
  : np_random rng (list F) :=
  let clean :=
    map (λ t, f_add base (f_mul amplitude (np_sin (f_mul rate t)))) time in
  noise ← np_random_normal f_zero noise_std (length time);
  mret (np_add clean noise).

Record SynthesisSpec := {
  base : F;
  amplitude : F;
  angular_rate : F;
  noise_std : F;
  seed : Z
}.

(** The noise-free part of a channel, at one timestamp. *)
Definition clean_signal (spec : SynthesisSpec) (t : F) : F :=
  f_add (base spec)
        (f_mul (amplitude spec) (np_sin (f_mul (angular_rate spec) t))).

(** The specification's [synthesize]: a channel expression of
    [chapter01.py] drawn right after seeding the generator with the
    spec's own seed, which is [add_noise] applied to the clean sinusoid. *)
Definition synthesize (timestamps : list F) (spec : SynthesisSpec)
  : np_random rng (list F) :=
  np_random_seed (seed spec) ≫= λ _,
  channel (base spec) (amplitude spec) (angular_rate spec) (noise_std spec)
    timestamps.

(** [np.arange(0, stop, step)] with [n] points: [0 + i * step]. *)
Definition np_arange (step : F) (n : nat) : list F :=
  map (λ i, f_add f_zero (f_mul (f_of_nat i) step)) (seq 0 n).
End random.

Arguments SynthesisSpec : clear implicits.
Arguments base {F} _.
Arguments amplitude {F} _.
Arguments angular_rate {F} _.
Arguments noise_std {F} _.
Arguments seed {F} _.
Arguments Build_SynthesisSpec {F} _ _ _ _ _.

(** ** The dataset loader ([train_features.py]) *)

(** A directory tree.  A file stands for what
    [pd.read_csv(filepath)[['ax', 'ay', 'az']].values] makes of it: the rows
    of the three axis columns, or the exception raised on the way. *)
#[warnings="-register-all"]
Inductive node : Type :=
  | File (read : result (list (float * float * float)))
  | Dir (entries : list (string * node)).

Abbreviation path := (string * node)%type.

Definition is_dir (n : node) : bool :=
  match n with Dir _ => true | File _ => false end.

(** [Path.iterdir()], in the order the operating system lists the entries. *)
Definition iterdir (n : node) : result (list path) :=
  match n with
  | Dir entries => Ok entries
  | File _ => Raise (OSError "Not a directory")
  end.

Definition ends_with (suffix s : string) : bool :=
  let n := String.length s in
  let k := String.length suffix in
  (k <=? n)%nat && String.eqb (String.substring (n - k) k s) suffix.

(** [Path.glob("*.csv")] *)
Definition glob_csv (n : node) : list path :=
  match n with
  | Dir entries => filter (λ p, Is_true (ends_with ".csv" p.1)) entries
  | File _ => []
  end.

(** [sorted] on sibling paths: by name, code unit by code unit. *)
Definition path_le (p q : path) : Prop := String.le p.1 q.1.
Global Instance path_le_dec : RelDecision path_le.
Proof. intros p q. unfold path_le. apply _. Defined.
Definition sorted_paths (ps : list path) : list path := merge_sort path_le ps.

(** [df[['ax', 'ay', 'az']].values] *)
Definition values (rs : list (float * float * float)) : ndarray float :=
  array_of_rows 3 (map (λ r, [r.1.1; r.1.2; r.2]) rs).

Definition read_sequence (n : node) : result (ndarray float) :=
  match n with
  | File read => rs ← read; Ok (values rs)
  | Dir _ => Raise (OSError "Is a directory")
  end.

Definition condition_mapping : gmap string nat :=
  <["normal" := 0]> (<["bearing" := 1]> (<["misalignment" := 2]>
    (<["imbalance" := 3]> ∅))).

(** The body of [for filepath in csv_files]. *)
Definition load_file (label : nat) (acc : list (list float) * list nat)
    (filepath : path) : result (list (list float) * list nat) :=
  sequence ← read_sequence filepath.2;
  features ← extract_features_from_sequence sequence;
  Ok (acc.1 ++ [features], acc.2 ++ [label]).

(** The loop [for condition_dir in sorted(condition_dirs)], with the lines
    printed so far. *)
Fixpoint load_conditions (dirs : list path) (out : list string)
    (acc : list (list float) * list nat)
  : list string * result (list (list float) * list nat) :=
  match dirs with
  | [] => (out, Ok acc)
  | condition_dir :: dirs' =>
      let condition := condition_dir.1 in
      match condition_mapping !! condition with
      | None =>
          load_conditions dirs'
            (out ++ ["Warning: Unknown condition '" +:+ condition
                       +:+ "', skipping..."]) acc
      | Some label =>
          let csv_files := sorted_paths (glob_csv condition_dir.2) in
          match for_each (load_file label) csv_files acc with
          | Raise e => (out, Raise e)
          | Ok acc' =>
              load_conditions dirs'
                (out ++ ["Extracted features from "
                           +:+ pretty (length csv_files) +:+ " samples in "
                           +:+ condition +:+ " condition"]) acc'
          end
      end
  end.

Definition load_csv_data_with_features (fs : string → option node)
    (directory : string)
  : list string * result (list (list float) * list nat * list string) :=
  match fs directory with
  | None =>
      ([], Raise (ValueError ("Directory " +:+ directory
                                +:+ " does not exist!")))
  | Some base_path =>
      match iterdir base_path with
      | Raise e => ([], Raise e)
      | Ok entries =>
          let condition_dirs := filter (λ d, Is_true (is_dir d.2)) entries in
          match condition_dirs with
          | [] =>
              ([], Raise (ValueError ("No condition subdirectories found in "
                                        +:+ directory)))
          | _ :: _ =>
              match load_conditions (sorted_paths condition_dirs) [] ([], []) with
              | (out, Raise e) => (out, Raise e)
              | (out, Ok (X_list, y_list)) =>
                  let condition_names :=
                    merge_sort String.le (elements (dom condition_mapping)) in
                  (out, Ok (X_list, y_list, condition_names))
              end
          end
      end
  end.

(** ** The specification's FeatureVector *)

Section feature_vector.
Context {F : Type} `{Scalar F}.

(** The six statistics of one axis, in the words of the specification:
    mean, population standard deviation (denominator: the number of time
    steps), minimum, maximum, root-mean-square and peak-to-peak. *)
Definition stat_mean (x : list F) : F :=
  f_div (np_sum x) (f_of_nat (length x)).
Definition stat_std (x : list F) : F :=
  let deviation v := f_sub v (stat_mean x) in
  f_sqrt (f_div (np_sum (map (λ v, f_mul (deviation v) (deviation v)) x))
                (f_of_nat (length x))).
Definition stat_min (x : list F) : F := foldl np_minimum (hd f_zero x) (tl x).
Definition stat_max (x : list F) : F := foldl np_maximum (hd f_zero x) (tl x).
Definition stat_rms (x : list F) : F :=
  f_sqrt (stat_mean (map (λ v, f_mul v v) x)).
Definition stat_ptp (x : list F) : F := f_sub (stat_max x) (stat_min x).

Definition six_statistics (x : list F) : list F :=
  [stat_mean x; stat_std x; stat_min x; stat_max x; stat_rms x; stat_ptp x].

(** Axis-major concatenation. *)
Definition feature_vector (window : ndarray F) : list F :=
  concat (map (λ axis_idx, six_statistics (column window axis_idx))
              (seq 0 (shape1 window))).

(** The sample standard deviation (denominator [N - 1]), for contrast. *)
Definition sample_std (x : list F) : F := np_std 1 x.
End feature_vector.

(** ** The loader's samples, in the words of the specification *)

(** The samples of a list of class directories: for each recognized class
    in turn, its matching files in sorted order, each with the class label. *)
Definition samples_of (dirs : list path) : list (path * nat) :=
  flat_map (λ d,
    match condition_mapping !! d.1 with
    | None => []
    | Some label => map (λ f, (f, label)) (sorted_paths (glob_csv d.2))
    end) dirs.

(** Class subdirectories sorted by name, then files sorted by name. *)
Definition samples_in_order (entries : list path) : list (path * nat) :=
  samples_of (sorted_paths (filter (λ d, Is_true (is_dir d.2)) entries)).

(** What the loader computes from one sample file. *)
Definition features_of_file (f : path) : result (list float) :=
  read_sequence f.2 ≫= extract_features_from_sequence.

(** Two listings of one directory tree: the same names with the same
    contents, listed in any order at every level. *)
#[warnings="-register-all"]
Inductive same_tree : node → node → Prop :=
  | same_file (read : result (list (float * float * float))) :
      same_tree (File read) (File read)
  | same_dir (es es' es'' : list path) :
      es ≡ₚ es'' →
      Forall2 (λ p q, p.1 = q.1 ∧ same_tree p.2 q.2) es'' es' →
      same_tree (Dir es) (Dir es').

Definition same_entry (p q : path) : Prop := p.1 = q.1 ∧ same_tree p.2 q.2.

Definition same_listing (es es' : list path) : Prop :=
  ∃ es'', es ≡ₚ es'' ∧ Forall2 same_entry es'' es'.

(** No two entries of a directory share a name, on the two levels the
    loader reads. *)
Definition distinct_names (es : list path) : Prop := NoDup es.*1.
Definition distinct_names2 (es : list path) : Prop :=
  distinct_names es
  ∧ ∀ name children, (name, Dir children) ∈ es → distinct_names children.

(** The six fields of axis [axis_idx] in a feature vector. *)
Definition axis_fields {F} (features : list F) (axis_idx : nat) : list F :=
  take 6 (drop (6 * axis_idx) features).


(** ** Concrete windows and directory trees *)

Definition window_1234 : ndarray float :=
  array_of_rows 1 [[1%float]; [2%float]; [3%float]; [4%float]].
Definition window_1234_R : ndarray R :=
  array_of_rows 1 [[1%R]; [2%R]; [3%R]; [4%R]].

(** One tenth, as binary64 has it. *)
Definition tenth : float := 0x1.999999999999ap-4%float.

Definition xyz (v : float) : float * float * float := (v, v, v).

(** The scenario of the specification: [normal/] and [bearing/] hold
    samples, [unknown_condition/] is no class, [misalignment/] is empty. *)
Definition scenario_tree : node :=
  Dir [("normal", Dir [("s2.csv", File (Ok [xyz 1; xyz 2]%float));
                       ("s1.csv", File (Ok [xyz 3]%float));
                       ("notes.txt", File (Raise (OSError "not a table")))]);
       ("misalignment", Dir []);
       ("bearing", Dir [("s1.csv", File (Ok [xyz 4]%float))]);
       ("unknown_condition", Dir [("s1.csv", File (Ok [xyz 5]%float))]);
       ("README.md", File (Raise (OSError "not a table")))].

Definition scenario_fs : string → option node := λ directory,
  if String.eqb directory "train" then Some scenario_tree else None.

(** The same tree as another operating system might list it: every
    directory in the opposite order. *)
Definition scenario_tree' : node :=
  Dir [("README.md", File (Raise (OSError "not a table")));
       ("unknown_condition", Dir [("s1.csv", File (Ok [xyz 5]%float))]);
       ("bearing", Dir [("s1.csv", File (Ok [xyz 4]%float))]);
       ("misalignment", Dir []);
       ("normal", Dir [("notes.txt", File (Raise (OSError "not a table")));
                       ("s1.csv", File (Ok [xyz 3]%float));
                       ("s2.csv", File (Ok [xyz 1; xyz 2]%float))])].

Definition scenario_fs' : string → option node := λ directory,
  if String.eqb directory "train" then Some scenario_tree' else None.

(** A tree whose only class directory holds no sample. *)
Definition empty_class_fs : string → option node := λ directory,
  if String.eqb directory "train" then Some (Dir [("misalignment", Dir [])])
  else None.

(** ** Synthesis scenario *)

(** The grid of [np.arange(0, 10, 0.1)]: 100 timestamps. *)
Definition timestamps_100 : list float := np_arange tenth 100.

Definition scenario_spec : SynthesisSpec float :=
  Build_SynthesisSpec 50%float 0.5%float 1%float 0%float 42%Z.

(** A stand-in for the generator and for the sine, to run the model on:
    the state is a counter, the variates alternate between two values. *)
Definition counter_init (seed : Z) : Z := seed.
Definition counter_gauss (g : Z) : float * Z :=
  (if Z.even g then 0.5%float else (-1.25)%float, (g + 1)%Z).
Definition cubic_sin (x : float) : float := (x - x * x * x / 6)%float.

(** ** Classes of IEEE numbers *)

(** A number with the sign [s]: a zero, an infinity or a finite number. *)
Definition sf_signed (s : bool) (x : spec_float) : Prop :=
  match x with
  | S754_zero s' | S754_infinity s' | S754_finite s' _ _ => s' = s
  | S754_nan => False
  end.

(** A non-zero number with the sign [s]. *)
Definition sf_nonzero (s : bool) (x : spec_float) : Prop :=
  match x with
  | S754_infinity s' | S754_finite s' _ _ => s' = s
  | S754_zero _ | S754_nan => False
  end.

(** A number that is not negative: a zero of either sign, the positive
    infinity or a positive finite number. *)
Definition sf_nonneg (x : spec_float) : Prop :=
  match x with
  | S754_zero _ => True
  | S754_infinity s | S754_finite s _ _ => s = false
  | S754_nan => False
  end.


(** Every float but the negative zero. *)
Definition not_neg_zero (x : float) : Prop := Prim2SF x ≠ S754_zero true.

(** * More of the scripts *)

(** ** The class summary of [train_features.py] *)

(** The number of [*.csv] entries in the subdirectories named [condition]. *)
Definition csv_count (entries : list path) (condition : string) : nat :=
  length (flat_map (λ d, glob_csv d.2)
            (filter (λ d, d.1 = condition)
               (filter (λ d, Is_true (is_dir d.2)) entries))).

(** [np.sum(y_train == i)] *)
Definition count_label (y_train : list nat) (i : nat) : nat :=
  length (filter (λ label, label = i) y_train).

(** The lines printed by
    [for i, name in enumerate(condition_names): ...]. *)
Definition class_summary (y_train : list nat) (condition_names : list string)
  : list string :=
  imap (λ i name,
          "  " +:+ name +:+ ": " +:+ pretty (count_label y_train i)
               +:+ " samples")
       condition_names.

(** The labels of [count] samples of one class. *)
Definition label_block (entries : list path) (condition : string)
    (label : nat) : list nat :=
  replicate (csv_count entries condition) label.

(** ** What the loader looks at *)

(** Two entries of the root directory that the loader cannot tell apart:
    two files, two subdirectories that name no class, or two
    subdirectories of one class with the same [*.csv] entries. *)
Definition same_for_loader (p q : path) : Prop :=
  p.1 = q.1
  ∧ match p.2, q.2 with
    | File _, File _ => True
    | Dir children, Dir children' =>
        condition_mapping !! p.1 = None
        ∨ glob_csv (Dir children) = glob_csv (Dir children')
    | _, _ => False
    end.

(** The loader's two loops as one loop over the samples. *)
Definition load_sample (acc : list (list float) * list nat)
    (sample : path * nat) : result (list (list float) * list nat) :=
  features ← features_of_file sample.1;
  Ok (acc.1 ++ [features], acc.2 ++ [sample.2]).

(** ** Signal statistics ([signal_visualizer.py]) *)

Section statistics.
Context {F : Type} `{Scalar F}.

(** [calculate_statistics]: the dictionary is built entry by entry, and
    [np.min] is the first call that can raise. *)
Definition calculate_statistics (signal : list F) : result (gmap string F) :=
  let mean := np_mean signal in
  let std := np_std 0 signal in
  mn ← np_min signal;
  mx ← np_max signal;
  let rms := f_sqrt (np_mean (np_square signal)) in
  Ok (<["rms" := rms]> (<["max" := mx]> (<["min" := mn]>
        (<["std" := std]> (<["mean" := mean]> ∅))))).

(** A signal as a window of one axis: [signal.reshape(-1, 1)]. *)
Definition one_axis (signal : list F) : ndarray F :=
  NdArray (length signal) 1 (map (λ v, [v]) signal).
End statistics.

(** ** Signal-to-noise ratio ([signal_visualizer.py]) *)

Section snr.
Context {rng : Type}.
Variable init_genrand : Z → rng.
Variable legacy_gauss : rng → float * rng.
(** The decimal logarithm of the C library. *)
Variable np_log10 : float → float.

(** [calculate_snr], on binary64 arrays. *)
Definition calculate_snr (signal noise : list float) : float :=
  let signal_power := np_mean (np_square signal) in
  let noise_power := np_mean (np_square noise) in
  if (0 <? noise_power)%float
  then (10 * np_log10 (signal_power / noise_power))%float
  else infinity.

(** [a - b] on two arrays of one length. *)
Definition np_subtract (a b : list float) : list float :=
  zip_with PrimFloat.sub a b.

(** [snr_noisy] of [update_plots], with noise enabled: the noise is what
    [add_noise] changed in the clean signal. *)
Definition snr_noisy (clean_signal : list float) (noise_level : float)
  : np_random rng float :=
  noisy_signal ← add_noise init_genrand legacy_gauss clean_signal noise_level
                   (Some 42%Z);
  let noise := np_subtract noisy_signal clean_signal in
  mret (calculate_snr clean_signal noise).
End snr.

(** A zero of either sign, or a NaN. *)
Definition sf_zero_or_nan (x : spec_float) : Prop :=
  match x with
  | S754_zero _ | S754_nan => True
  | _ => False
  end.

(** ** The moving-average filter ([signal_visualizer.py]) *)

Section filter.
Context {F : Type} `{Scalar F}.

(** [np.ones(n)] for a Python integer [n]. *)
Definition np_ones (n : Z) : result (list F) :=
  if (n <? 0)%Z then Raise (ValueError "negative dimensions are not allowed")
  else Ok (replicate (Z.to_nat n) (f_of_nat 1)).

(** The discrete convolution [(a * v)[k] = sum_m a[m] * v[k - m]], with
    [len(a) + len(v) - 1] entries.  Each entry is the dot product of the
    overlapping parts, summed here in index order (the grouping of the
    additions is immaterial in exact arithmetic). *)
Definition np_convolve_full (a v : list F) : list F :=
  map (λ k,
         let first := k + 1 - length v in
         let stop := min (k + 1) (length a) in
         np_sum (map (λ m, f_mul (nth m a f_zero) (nth (k - m) v f_zero))
                     (seq first (stop - first))))
      (seq 0 (length a + length v - 1)).

(** [np.convolve(a, v, mode='same')]: the longer array comes first, an
    empty array is an error, and the result is the central part of the full
    convolution, as long as the longer array. *)
Definition np_convolve_same (a v : list F) : result (list F) :=
  let '(a, v) := if (length a <? length v)%nat then (v, a) else (a, v) in
  if (length a =? 0)%nat then Raise (ValueError "a cannot be empty")
  else if (length v =? 0)%nat then Raise (ValueError "v cannot be empty")
  else Ok (take (length a)
             (drop ((length v - 1) / 2) (np_convolve_full a v))).

(** [apply_filter] *)
Definition apply_filter (signal : list F) (window_size : Z)
  : result (list F) :=
  ones ← np_ones window_size;
  let kernel :=
    map (λ one, f_div one (f_of_nat (Z.to_nat window_size))) ones in
  np_convolve_same signal kernel.
End filter.

(** ** Choosing a port ([signal_visualizer.py]) *)

Section ports.
(** The operating system, as the script meets it: whether the socket of
    the [i]-th attempt can be created, and what binding a fresh socket to
    a port of 127.0.0.1 answers. *)
Variable socket : nat → result unit.
Variable bind : Z → result unit.

(** The loop [for i in range(max_attempts)] of [find_free_port]: the
    socket is created outside the [try], only an [OSError] of [bind] is
    caught. *)
Fixpoint try_ports (start_port : Z) (attempts : list nat)
  : result (option Z) :=
  match attempts with
  | [] => Ok None
  | i :: attempts' =>
      let port := (start_port + Z.of_nat i)%Z in
      _ ← socket i;
      match bind port with
      | Ok _ => Ok (Some port)
      | Raise (OSError _) => try_ports start_port attempts'
      | Raise e => Raise e
      end
  end.

Definition find_free_port (start_port max_attempts : Z)
  : result (option Z) :=
  try_ports start_port (seq 0 (Z.to_nat max_attempts)).

(** The port handed to [ui.run], with the lines printed before. *)
Definition startup_port : result (list string * Z) :=
  port ← find_free_port 3030 10;
  match port with
  | None =>
      Ok (["Warning: Could not find a free port in range 3030-3039.";
           "Trying port 3030 anyway..."], 3030%Z)
  | Some port => Ok ([], port)
  end.
End ports.

(** A port is taken when binding to it raises [OSError]. *)
Definition taken (bind : Z → result unit) (port : Z) : Prop :=
  ∃ msg, bind port = Raise (OSError msg).

(** ** The sensor channels of [chapter01.py] *)

Section chapter01.
Context {rng : Type}.
Variable init_genrand : Z → rng.
Variable legacy_gauss : rng → float * rng.
Variable np_sin : float → float.
Local Open Scope float_scope.

(** The literals 0.2, 0.05 and 0.3 as binary64 reads them (0.1 is
    [tenth]). *)
Definition two_tenths : float := 0x1.999999999999ap-3.
Definition five_hundredths : float := 0x1.999999999999ap-5.
Definition three_tenths : float := 0x1.3333333333333p-2.

(** [np.arange(0, 100, 0.1)]: [ceil(100 / 0.1) = 1000] points. *)
Definition chapter01_time : list float := np_arange tenth 1000.

Record sensors := Sensors {
  temperature : list float;
  vibration : list float;
  pressure : list float;
  current : list float
}.

(** Lines 12 to 38: the generator is seeded once, then each channel
    draws its noise in turn. *)
Definition chapter01_sensors : np_random rng sensors :=
  np_random_seed init_genrand 42 ≫= λ _,
  let time := chapter01_time in
  noise ← np_random_normal legacy_gauss 0 two_tenths (length time);
  let temperature :=
    np_add (map (λ t, 50 + 0.5 * np_sin t) time) noise in
  noise ← np_random_normal legacy_gauss 0 five_hundredths (length time);
  let vibration :=
    np_add (map (λ t, 1 + tenth * np_sin (2 * t)) time) noise in
  noise ← np_random_normal legacy_gauss 0 1 (length time);
  let pressure :=
    np_add (map (λ t, 100 + 5 * np_sin (0.5 * t)) time) noise in
  noise ← np_random_normal legacy_gauss 0 tenth (length time);
  let current :=
    np_add (map (λ t, 10 + three_tenths * np_sin t) time) noise in
  mret (Sensors temperature vibration pressure current).
End chapter01.

(** The temperature channel of [chapter01.py] as a synthesis spec. *)
Definition temperature_spec : SynthesisSpec float :=
  Build_SynthesisSpec 50%float 0.5%float 1%float two_tenths 42%Z.

(** ** The sine wave with noise ([example.py], [signal_visualizer.py]) *)

(** [np.pi] *)
Definition np_pi : float := 0x1.921fb54442d18p+1.

Section example.
Context {rng : Type}.
Variable init_genrand : Z → rng.
Variable legacy_gauss : rng → float * rng.
Variable np_sin : float → float.
Local Open Scope float_scope.

(** [create_sine_wave] of [example.py]:
    [amplitude * np.sin(2 * np.pi * frequency * time)]. *)
Definition create_sine_wave (time : list float) (frequency amplitude : float)
  : list float :=
  map (λ t, amplitude * np_sin (2 * np_pi * frequency * t)) time.

(** [generate_sine_wave] of [signal_visualizer.py]. *)
Definition generate_sine_wave (t : list float) (frequency amplitude : float)
  : list float :=
  map (λ t, amplitude * np_sin (2 * np_pi * frequency * t)) t.

(** [signal + noise] on one-dimensional arrays: entry by entry when the
    lengths agree, an array of one entry is stretched, other shapes do not
    go together. *)
Definition add_signal_and_noise (signal noise : list float)
  : result (list float) :=
  if decide (length signal = length noise)
  then Ok (zip_with PrimFloat.add signal noise)
  else
    match signal, noise with
    | [x], _ => Ok (map (λ y, x + y) noise)
    | _, [y] => Ok (map (λ x, x + y) signal)
    | _, _ =>
        Raise (ValueError
          ("operands could not be broadcast together with shapes ("
             +:+ pretty (length signal) +:+ ",) ("
             +:+ pretty (length noise) +:+ ",) "))
    end.

(** A step that may raise and leaves the generator alone. *)
Definition np_pure {A} (r : result A) : np_random rng A := λ g, (r, g).

(** The signals of [main] in [example.py], from the time array on. *)
Definition example_signals (time : list float)
    (frequency amplitude noise_level : float)
  : np_random rng (list float * list float) :=
  let clean_signal := create_sine_wave time frequency amplitude in
  noise ← create_noise init_genrand legacy_gauss (length time) noise_level 42;
  noisy_signal ← np_pure (add_signal_and_noise clean_signal noise);
  mret (clean_signal, noisy_signal).

(** The clean and the noisy signal of [update_plots] in
    [signal_visualizer.py], for the signal type 'Sine' with noise
    enabled. *)
Definition visualizer_sine_signals (t : list float)
    (frequency amplitude noise_level : float)
  : np_random rng (list float * list float) :=
  let clean_signal := generate_sine_wave t frequency amplitude in
  noisy_signal ← add_noise init_genrand legacy_gauss clean_signal noise_level
                   (Some 42%Z);
  mret (clean_signal, noisy_signal).
End example.

(** ** The square wave and the frequency axis ([signal_visualizer.py]) *)

Section square.
Variable np_sin : float → float.
Local Open Scope float_scope.

(** [np.sign]: 1, -1 or 0 as the number is above, below or equal to
    zero, and NaN for NaN. *)
Definition np_sign (x : float) : float :=
  if 0 <? x then 1 else if x <? 0 then -1 else if x =? 0 then 0 else x.

(** [generate_square_wave] *)
Definition generate_square_wave (t : list float) (frequency amplitude : float)
  : list float :=
  map (λ t, amplitude * np_sign (np_sin (2 * np_pi * frequency * t))) t.
End square.

(** Python's [max(a, b)] and [min(a, b)] of two numbers: the first one
    unless the second is greater, respectively smaller. *)
Definition py_max (a b : float) : float := if (a <? b)%float then b else a.
Definition py_min (a b : float) : float := if (b <? a)%float then b else a.

(** The upper limit of the frequency axis:
    [min(10, max(5, frequency * 3))]. *)
Definition frequency_axis_limit (frequency : float) : float :=
  py_min 10 (py_max 5 (frequency * 3)).

(** ** The order of binary64 *)

(** The place of a float that is no NaN in the order of binary64: its
    class (minus infinity, negative, zero, positive, plus infinity), then
    the exponent, then the mantissa, the last two counted downwards for a
    negative number. *)
Definition sf_key (x : spec_float) : Z * Z * Z :=
  match x with
  | S754_infinity true => (-2, 0, 0)%Z
  | S754_finite true m e => (-1, - e, Z.neg m)%Z
  | S754_zero _ | S754_nan => (0, 0, 0)%Z
  | S754_finite false m e => (1, e, Z.pos m)%Z
  | S754_infinity false => (2, 0, 0)%Z
  end.

Definition key_le (k k' : Z * Z * Z) : Prop :=
  (k.1.1 < k'.1.1
   ∨ (k.1.1 = k'.1.1
      ∧ (k.1.2 < k'.1.2 ∨ (k.1.2 = k'.1.2 ∧ k.2 ≤ k'.2))))%Z.

(** ** Loader scenarios *)

(** The scenario tree with everything the loader does not look at
    changed: the files of the root, the content of the directory that
    names no class, the files of another suffix. *)
Definition scenario_tree_other : node :=
  Dir [("normal", Dir [("s2.csv", File (Ok [xyz 1; xyz 2]%float));
                       ("s1.csv", File (Ok [xyz 3]%float))]);
       ("misalignment", Dir [("plot.png", File (Raise (OSError "no table")))]);
       ("bearing", Dir [("s1.csv", File (Ok [xyz 4]%float))]);
       ("unknown_condition", Dir []);
       ("README.md", File (Ok []))].

Definition scenario_fs_other : string → option node := λ directory,
  if String.eqb directory "train" then Some scenario_tree_other else None.

(** A tree with a table that lacks a column, between readable ones. *)
Definition broken_entries : list path :=
  [("normal", Dir [("a.csv", File (Ok [xyz 1]%float));
                   ("b.csv", File (Raise (KeyError "['ax'] not in index")));
                   ("c.csv", File (Ok [xyz 2]%float))]);
   ("bearing", Dir [("d.csv", File (Ok [xyz 3]%float))])].

Definition broken_fs : string → option node := λ directory,
  if String.eqb directory "train" then Some (Dir broken_entries) else None.

(** A root that is a file, and a root that holds the tables themselves. *)
Definition file_fs : string → option node := λ directory,
  if String.eqb directory "train" then Some (File (Ok [xyz 1]%float))
  else None.

Definition flat_fs : string → option node := λ directory,
  if String.eqb directory "train"
  then Some (Dir [("s1.csv", File (Ok [xyz 1]%float))])
  else None.

(** An operating system on which ports 3030 and 3031 are in use. *)
Definition busy_bind (port : Z) : result unit :=
  if (port <? 3032)%Z then Raise (OSError "Address already in use")
  else Ok ().
Definition any_socket (i : nat) : result unit := Ok ().

(** A window whose second axis holds a NaN. *)
Definition window_nan : ndarray float :=
  array_of_rows 2 [[1%float; nan]; [2%float; 3%float]].

(** A stand-in for the decimal logarithm, to run the model on. *)
Definition linear_log10 (x : float) : float := (x - 1)%float.

(** ** The report on the training data ([train_features.py]) *)

(** How the lines 126 to 141 of the script end: they go on to the
    scaling, or an exception ends the script. *)
Inductive script_end : Type :=
  | GoesOn
  | Raises (e : exn)
  | RaisesIndexError (msg : string).

(** The shape of [np.array(X_list)] for rows of one length: without rows
    the array has one dimension, of length 0. *)
Definition matrix_shape (X_list : list (list float)) : list nat :=
  match X_list with
  | [] => [0]
  | row :: _ => [length X_list; length row]
  end.

(** The shape of [np.array(y_list)]. *)
Definition vector_shape (y_list : list nat) : list nat := [length y_list].

(** A tuple of integers, as an f-string shows it. *)
Definition tuple_repr (t : list nat) : string :=
  match t with
  | [] => "()"
  | [n] => "(" +:+ pretty n +:+ ",)"
  | n :: t' =>
      "(" +:+ pretty n
          +:+ foldr (λ k s, ", " +:+ pretty k +:+ s) ")" t'
  end.

(** A list of strings without quotes or escapes, as an f-string shows
    it. *)
Definition list_repr (l : list string) : string :=
  match l with
  | [] => "[]"
  | s :: l' =>
      "['" +:+ s +:+ "'"
           +:+ foldr (λ s' r, ", '" +:+ s' +:+ "'" +:+ r) "]" l'
  end.

(** ["=" * 60] *)
Definition rule : string :=
  "============================================================".

(** Lines 126 to 141: the training data are loaded and reported. *)
Definition training_report (fs : string → option node)
  : list string * script_end :=
  let out := [rule; "Loading Training Data and Extracting Features"; rule] in
  let '(printed, loaded) := load_csv_data_with_features fs "train" in
  let out := out ++ printed in
  match loaded with
  | Raise e => (out, Raises e)
  | Ok (X_train, y_train, condition_names) =>
      let out :=
        out ++ [""; "Feature matrix shape: "
                      +:+ tuple_repr (matrix_shape X_train)] in
      let out :=
        out ++ ["Labels shape: " +:+ tuple_repr (vector_shape y_train)] in
      match matrix_shape X_train !! 1 with
      | None => (out, RaisesIndexError "tuple index out of range")
      | Some n_features =>
          let out :=
            out ++ ["Number of features per sample: " +:+ pretty n_features] in
          let out :=
            out ++ ["Number of classes: "
                      +:+ pretty (length condition_names)] in
          let out := out ++ ["Classes: " +:+ list_repr condition_names] in
          (out ++ class_summary y_train condition_names, GoesOn)
      end
  end.

(** * Properties *)

(** ** The extractor returns the feature vector *)

Section extract_facts.
Context {F : Type} `{Scalar F}.

Lemma np_min_stat (x : list F) : x ≠ [] → np_min x = Ok (stat_min x).
Proof. by destruct x. Qed.

Lemma np_max_stat (x : list F) : x ≠ [] → np_max x = Ok (stat_max x).
Proof. by destruct x. Qed.

Lemma np_std_stat (x : list F) : np_std 0 x = stat_std x.
Proof.
  unfold np_std, np_var, stat_std, np_square, np_mean, stat_mean.
  rewrite Nat.sub_0_r, map_map. done.
Qed.

Lemma column_length (w : ndarray F) j : length (column w j) = length (rows w).
Proof. unfold column. by rewrite length_map. Qed.

Lemma column_nonempty (w : ndarray F) j : rows w ≠ [] → column w j ≠ [].
Proof. unfold column. by destruct (rows w). Qed.

Lemma extract_axis_ok (w : ndarray F) features j :
  rows w ≠ [] →
  extract_axis w features j = Ok (features ++ six_statistics (column w j)).
Proof.
  intros Hne. unfold extract_axis.
  pose proof (column_nonempty w j Hne) as Hc.
  rewrite (np_min_stat _ Hc), (np_max_stat _ Hc). simpl.
  rewrite np_std_stat. rewrite <- !app_assoc. done.
Qed.


Lemma for_each_extract_axis (w : ndarray F) axes features :
  rows w ≠ [] →
  for_each (extract_axis w) axes features
  = Ok (features ++ concat (map (λ j, six_statistics (column w j)) axes)).
Proof.
  intros Hne. revert features.
  induction axes as [|j axes IH]; intros features; simpl.
  - by rewrite app_nil_r.
  - rewrite extract_axis_ok by done. simpl. rewrite IH.
    by rewrite <- app_assoc.
Qed.

Lemma extract_features_ok (w : ndarray F) :
  rows w ≠ [] → extract_features_from_sequence w = Ok (feature_vector w).
Proof.
  intros Hne. unfold extract_features_from_sequence.
  by rewrite for_each_extract_axis.
Qed.

Lemma feature_vector_length (w : ndarray F) :
  length (feature_vector w) = 6 * shape1 w.
Proof.
  unfold feature_vector. generalize 0 at 1.
  induction (shape1 w) as [|n IH]; intros k; simpl; [done|].
  rewrite IH. lia.
Qed.

Lemma rectangular_rows_nonempty (w : ndarray F) :
  rectangular w → 1 ≤ shape0 w → rows w ≠ [].
Proof.
  intros [Hlen _] Hpos Hnil. rewrite Hnil in Hlen. simpl in Hlen. lia.
Qed.

Lemma feature_vector_lookup (w : ndarray F) j k :
  j < shape1 w → k < 6 →
  feature_vector w !! (6 * j + k) = six_statistics (column w j) !! k.
Proof.
  unfold feature_vector. intros Hj Hk.
  assert (Hgen : ∀ n s i, i < n →
    concat (map (λ a, six_statistics (column w a)) (seq s n)) !! (6 * i + k)
    = six_statistics (column w (s + i)) !! k).
  { induction n as [|n IH]; intros s i Hi; [lia|].
    rewrite <- cons_seq, map_cons, concat_cons. destruct i as [|i].
    - rewrite Nat.add_0_r, Nat.mul_0_r, Nat.add_0_l.
      by rewrite lookup_app_l by (simpl; lia).
    - assert (Hlen : length (six_statistics (column w s)) = 6) by done.
      rewrite lookup_app_r by lia. rewrite Hlen.
      replace (6 * S i + k - 6) with (6 * i + k) by lia.
      rewrite IH by lia. by replace (S s + i) with (s + S i) by lia. }
  by rewrite (Hgen _ 0 j Hj).
Qed.
End extract_facts.

(** C1. For every rectangular window with at least one time step and at
    least one axis, the extractor returns the axis-major concatenation of
    the six statistics (mean, standard deviation, min, max, rms,
    peak-to-peak) of each axis, a vector of exactly [6 * num_axes]
    entries. *)
Theorem extract_is_feature_vector {F : Type} `{Scalar F} (window : ndarray F) :
  rectangular window → 1 ≤ shape0 window → 1 ≤ shape1 window →
  extract_features_from_sequence window = Ok (feature_vector window)
  ∧ feature_vector window
    = concat (map (λ axis_idx,
        let x := column window axis_idx in
        [stat_mean x; stat_std x; stat_min x; stat_max x; stat_rms x;
         stat_ptp x]) (seq 0 (shape1 window)))
  ∧ length (feature_vector window) = 6 * shape1 window.
Proof.
  intros Hrect Hsteps _. split; [|split].
  - apply extract_features_ok. by apply rectangular_rows_nonempty.
  - done.
  - apply feature_vector_length.
Qed.

Lemma extract_is_feature_vector_witness :
  extract_features_from_sequence window_1234 = Ok (feature_vector window_1234)
  ∧ feature_vector window_1234
    = concat (map (λ axis_idx,
        let x := column window_1234 axis_idx in
        [stat_mean x; stat_std x; stat_min x; stat_max x; stat_rms x;
         stat_ptp x]) (seq 0 (shape1 window_1234)))
  ∧ length (feature_vector window_1234) = 6 * shape1 window_1234.
Proof.
  apply (extract_is_feature_vector window_1234).
  - split; [reflexivity|]. repeat constructor.
  - simpl. lia.
  - simpl. lia.
Defined.

(** ** Empty windows *)

(** A window without axes has nothing to reduce: the loop body never runs. *)
Lemma extract_no_axes {F : Type} `{Scalar F} (n : nat) (rs : list (list F)) :
  extract_features_from_sequence (NdArray n 0 rs) = Ok [].
Proof. done. Qed.




(** ** Exact arithmetic *)

Lemma Rleb_true (x y : R) : (x <= y)%R → Rleb x y = true.
Proof. intros. unfold Rleb. by destruct (Rle_dec x y). Qed.

Lemma Rleb_false (x y : R) : (y < x)%R → Rleb x y = false.
Proof. intros. unfold Rleb. destruct (Rle_dec x y); [lra|done]. Qed.

Lemma np_minimum_R (x y : R) : np_minimum x y = Rmin x y.
Proof.
  unfold np_minimum, Rmin. simpl. unfold Rleb.
  destruct (Rle_dec x y); by rewrite ?orb_false_r.
Qed.

Lemma np_maximum_R (x y : R) : np_maximum x y = Rmax y x.
Proof.
  unfold np_maximum, Rmax. simpl. unfold Rleb.
  destruct (Rle_dec y x); by rewrite ?orb_false_r.
Qed.

Lemma np_sum_R_from (a : R) (x : list R) :
  foldl Rplus a x = (a + np_sum x)%R.
Proof.
  unfold np_sum. simpl. revert a.
  induction x as [|v x IH]; intros a; simpl; [lra|].
  rewrite (IH (a + v)%R), (IH (0 + v)%R). lra.
Qed.

Lemma np_sum_R_cons (v : R) (x : list R) : np_sum (v :: x) = (v + np_sum x)%R.
Proof. unfold np_sum at 1. simpl. rewrite np_sum_R_from. lra. Qed.

(** ** The population standard deviation *)

(** C2. The extractor's standard deviation divides the summed squared
    deviations by the number of time steps (not by one less).  On the 4x1
    window 1, 2, 3, 4 it returns mean 2.5, std sqrt(1.25), min 1, max 4,
    rms sqrt(7.5) and peak-to-peak 3, in binary64 and in exact arithmetic;
    the sample standard deviation of that window is a different number. *)
Theorem std_is_population_std :
  (∀ (F : Type) (S : Scalar F) (window : ndarray F) (axis_idx : nat),
     rectangular window → 1 ≤ shape0 window → axis_idx < shape1 window →
     ∃ features,
       extract_features_from_sequence window = Ok features
       ∧ features !! (6 * axis_idx + 1)
         = Some (let x := column window axis_idx in
                 let deviation v := f_sub v (np_mean x) in
                 f_sqrt (f_div
                   (np_sum (map (λ v, f_mul (deviation v) (deviation v)) x))
                   (f_of_nat (shape0 window)))))
  ∧ extract_features_from_sequence window_1234
    = Ok [2.5; PrimFloat.sqrt 1.25; 1; 4; PrimFloat.sqrt 7.5; 3]%float
  ∧ extract_features_from_sequence window_1234_R
    = Ok [2.5; R_sqrt.sqrt 1.25; 1; 4; R_sqrt.sqrt 7.5; 3]%R
  ∧ sample_std (column window_1234 0) ≠ PrimFloat.sqrt 1.25
  ∧ sample_std (column window_1234_R 0) ≠ R_sqrt.sqrt 1.25.
Proof.
  split; [|split; [|split; [|split]]].
  - intros F S window j Hrect Hsteps Hj.
    exists (feature_vector window). split.
    + apply extract_features_ok. by apply rectangular_rows_nonempty.
    + rewrite (feature_vector_lookup window j 1) by lia.
      simpl. unfold stat_std, stat_mean, np_mean.
      rewrite column_length. destruct Hrect as [-> _]. done.
  - vm_compute. reflexivity.
  - rewrite extract_features_ok by done.
    unfold feature_vector, six_statistics. simpl.
    unfold stat_ptp, stat_rms, stat_std, stat_max, stat_min, stat_mean.
    simpl. rewrite !np_minimum_R, !np_maximum_R.
    rewrite !np_sum_R_cons. unfold np_sum. simpl.
    assert (Hmin : Rmin (Rmin (Rmin 1 2) 3) 4 = 1%R).
    { rewrite (Rmin_left 1 2) by lra. rewrite (Rmin_left 1 3) by lra.
      rewrite Rmin_left; lra. }
    assert (Hmax : Rmax 4 (Rmax 3 (Rmax 2 1)) = 4%R).
    { rewrite (Rmax_left 2 1) by lra. rewrite (Rmax_left 3 2) by lra.
      rewrite Rmax_left; lra. }
    rewrite Hmin, Hmax.
    repeat f_equal; lra.
  - vm_compute. intros Heq. discriminate Heq.
  - unfold sample_std, np_std, np_var, np_mean, np_square. simpl.
    rewrite !np_sum_R_cons. unfold np_sum. simpl.
    intros Heq. apply (f_equal (λ r, r * r)%R) in Heq.
    rewrite !sqrt_sqrt in Heq; lra.
Qed.

Lemma std_is_population_std_witness :
  ∃ features,
    extract_features_from_sequence window_1234 = Ok features
    ∧ features !! 1 = Some (PrimFloat.sqrt 1.25).
Proof.
  destruct (proj1 std_is_population_std float _ window_1234 0)
    as [features [Hok Hstd]].
  - split; [reflexivity|]. repeat constructor.
  - simpl. lia.
  - simpl. lia.
  - exists features. split; [exact Hok|].
    etrans; [exact Hstd|]. vm_compute. reflexivity.
Defined.

(** ** The dataset loader *)

Lemma condition_mapping_Some (condition : string) (label : nat) :
  condition_mapping !! condition = Some label ↔
  (condition = "normal" ∧ label = 0) ∨ (condition = "bearing" ∧ label = 1)
  ∨ (condition = "misalignment" ∧ label = 2)
  ∨ (condition = "imbalance" ∧ label = 3).
Proof.
  unfold condition_mapping. rewrite !lookup_insert_Some, lookup_empty.
  split.
  - intros [[<- <-]|[_ [[<- <-]|[_ [[<- <-]|[_ [[<- <-]|[_ ?]]]]]]]];
      auto 6; done.
  - intros [[-> ->]|[[-> ->]|[[-> ->]|[-> ->]]]]; auto 10.
Qed.

Lemma values_rows_nonempty (rs : list (float * float * float)) :
  rs ≠ [] → rows (values rs) ≠ [].
Proof. by destruct rs. Qed.

Lemma features_of_file_ok (name : string) (rs : list (float * float * float)) :
  rs ≠ [] →
  features_of_file (name, File (Ok rs)) = Ok (feature_vector (values rs)).
Proof.
  intros Hne. unfold features_of_file. simpl.
  apply extract_features_ok. by apply values_rows_nonempty.
Qed.

Lemma load_file_features (label : nat) acc (f : path) :
  load_file label acc f
  = x ← features_of_file f; Ok (acc.1 ++ [x], acc.2 ++ [label]).
Proof.
  unfold load_file, features_of_file.
  destruct (read_sequence f.2) as [sequence|e]; simpl; [|done].
  by destruct (extract_features_from_sequence sequence).
Qed.

(** The inner loop appends one row and one label per file, in order. *)
Lemma for_each_load_file (label : nat) (files : list path) acc acc' :
  for_each (load_file label) files acc = Ok acc' →
  ∃ xs, Forall2 (λ f x, features_of_file f = Ok x) files xs
        ∧ acc'.1 = acc.1 ++ xs
        ∧ acc'.2 = acc.2 ++ replicate (length files) label.
Proof.
  revert acc. induction files as [|f files IH]; intros acc Hrun; simpl in *.
  - injection Hrun as <-. exists []. by rewrite !app_nil_r.
  - rewrite load_file_features in Hrun.
    destruct (features_of_file f) as [x|e] eqn:Hx; simpl in Hrun; [|done].
    destruct (IH _ Hrun) as (xs & Hxs & HX & Hy). simpl in HX, Hy.
    exists (x :: xs). split; [by constructor|].
    rewrite HX, Hy, <- !app_assoc. done.
Qed.

Lemma for_each_load_file_ok (label : nat) (files : list path) acc :
  Forall (λ f, is_ok (features_of_file f) = true) files →
  is_ok (for_each (load_file label) files acc) = true.
Proof.
  intros Hall. revert acc.
  induction Hall as [|f files Hf _ IH]; intros acc; simpl; [done|].
  rewrite load_file_features.
  destruct (features_of_file f); [|done]. simpl. apply IH.
Qed.

Lemma samples_of_cons (d : path) (dirs : list path) :
  samples_of (d :: dirs)
  = match condition_mapping !! d.1 with
    | None => []
    | Some label => map (λ f, (f, label)) (sorted_paths (glob_csv d.2))
    end ++ samples_of dirs.
Proof. done. Qed.

(** The outer loop appends the samples of its directories, in order. *)
Lemma load_conditions_samples (dirs : list path) out acc out' acc' :
  load_conditions dirs out acc = (out', Ok acc') →
  ∃ xs, Forall2 (λ s x, features_of_file s.1 = Ok x) (samples_of dirs) xs
        ∧ acc'.1 = acc.1 ++ xs
        ∧ acc'.2 = acc.2 ++ (samples_of dirs).*2.
Proof.
  revert out acc. induction dirs as [|d dirs IH]; intros out acc Hrun.
  - simpl in Hrun. injection Hrun as _ <-. exists []. split; [constructor|].
    by rewrite !app_nil_r.
  - simpl in Hrun. rewrite samples_of_cons.
    destruct (condition_mapping !! d.1) as [label|] eqn:Hlabel.
    + destruct (for_each (load_file label) (sorted_paths (glob_csv d.2)) acc)
        as [acc1|e] eqn:Hinner; [|done].
      destruct (for_each_load_file _ _ _ _ Hinner) as (xs1 & Hxs1 & HX1 & Hy1).
      destruct (IH _ _ Hrun) as (xs & Hxs & HX & Hy).
      exists (xs1 ++ xs). split; [|split].
      * apply Forall2_app; [|done]. by apply Forall2_fmap_l.
      * by rewrite HX, HX1, <- app_assoc.
      * rewrite Hy, Hy1, <- app_assoc, fmap_app. do 2 f_equal.
        rewrite <- list_fmap_compose. simpl.
        clear. induction (sorted_paths (glob_csv d.2)); simpl; by f_equal.
    + destruct (IH _ _ Hrun) as (xs & Hxs & HX & Hy). by exists xs.
Qed.

Lemma samples_of_labels (dirs : list path) :
  Forall (λ label, ∃ condition, condition_mapping !! condition = Some label)
         (samples_of dirs).*2.
Proof.
  induction dirs as [|d dirs IH]; [constructor|].
  rewrite samples_of_cons, fmap_app. apply Forall_app. split; [|done].
  destruct (condition_mapping !! d.1) as [label|] eqn:Hlabel; [|constructor].
  apply Forall_fmap, Forall_fmap, Forall_forall. intros f _. simpl. eauto.
Qed.

(** What a successful run of the loader returns. *)
Lemma loader_returns fs directory out X y names :
  load_csv_data_with_features fs directory = (out, Ok (X, y, names)) →
  ∃ entries,
    fs directory = Some (Dir entries)
    ∧ Forall2 (λ s x, features_of_file s.1 = Ok x) (samples_in_order entries) X
    ∧ y = (samples_in_order entries).*2.
Proof.
  unfold load_csv_data_with_features, samples_in_order.
  generalize (merge_sort String.le (elements (dom condition_mapping))).
  intros condition_names.
  destruct (fs directory) as [[read|entries]|]; [intros [=]| |intros [=]].
  cbn [iterdir]. intros Hrun. exists entries. split; [reflexivity|].
  revert Hrun.
  match goal with
  | |- context [sorted_paths ?l] => destruct l as [|d0 ds]; [intros [=]|]
  end.
  destruct (load_conditions _ _ _) as [out1 [[X1 y1]|e]] eqn:Hloop;
    [|intros [=]].
  intros [= _ <- <- _].
  destruct (load_conditions_samples _ _ _ _ _ Hloop) as (xs & Hxs & HX & Hy).
  cbn [fst snd app] in HX, Hy. subst. split; [exact Hxs|reflexivity].
Qed.

(** The scenario tree, loaded. *)
Lemma scenario_run :
  load_csv_data_with_features scenario_fs "train"
  = (["Extracted features from 1 samples in bearing condition";
      "Extracted features from 0 samples in misalignment condition";
      "Extracted features from 2 samples in normal condition";
      "Warning: Unknown condition 'unknown_condition', skipping..."],
     Ok ([feature_vector (values [xyz 4]%float);
          feature_vector (values [xyz 3]%float);
          feature_vector (values [xyz 1; xyz 2]%float)],
         [1; 0; 0],
         ["bearing"; "imbalance"; "misalignment"; "normal"])).
Proof. vm_compute. reflexivity. Qed.

(** C10. Whenever the loader returns, the feature matrix and the label
    vector have one row per sample each, and every label is one of 0, 1, 2,
    3, the value of a class name under the fixed mapping normal = 0,
    bearing = 1, misalignment = 2, imbalance = 3. *)
Theorem loader_rows_and_labels fs directory out X y names :
  load_csv_data_with_features fs directory = (out, Ok (X, y, names)) →
  length X = length y
  ∧ Forall (λ label,
      label ∈ [0; 1; 2; 3]
      ∧ ∃ condition, condition_mapping !! condition = Some label) y
  ∧ condition_mapping !! "normal" = Some 0
  ∧ condition_mapping !! "bearing" = Some 1
  ∧ condition_mapping !! "misalignment" = Some 2
  ∧ condition_mapping !! "imbalance" = Some 3.
Proof.
  intros Hrun.
  destruct (loader_returns _ _ _ _ _ _ Hrun) as (entries & _ & HX & ->).
  split; [|split].
  - rewrite length_fmap. symmetry. by eapply Forall2_length.
  - unfold samples_in_order.
    eapply Forall_impl; [apply samples_of_labels|].
    intros label [condition Hc]. split; [|exists condition; exact Hc].
    apply condition_mapping_Some in Hc.
    destruct Hc as [[_ ->]|[[_ ->]|[[_ ->]|[_ ->]]]];
      rewrite !elem_of_cons; auto 10.
  - repeat split; apply condition_mapping_Some; auto 10.
Qed.

Lemma loader_rows_and_labels_witness :
  length [feature_vector (values [xyz 4]%float);
          feature_vector (values [xyz 3]%float);
          feature_vector (values [xyz 1; xyz 2]%float)]
  = length [1; 0; 0]
  ∧ Forall (λ label,
      label ∈ [0; 1; 2; 3]
      ∧ ∃ condition, condition_mapping !! condition = Some label) [1; 0; 0]
  ∧ condition_mapping !! "normal" = Some 0
  ∧ condition_mapping !! "bearing" = Some 1
  ∧ condition_mapping !! "misalignment" = Some 2
  ∧ condition_mapping !! "imbalance" = Some 3.
Proof.
  exact (loader_rows_and_labels _ _ _ _ _ _ scenario_run).
Defined.

(** ** A class directory without samples *)

Lemma sorted_paths_perm (ps : list path) : sorted_paths ps ≡ₚ ps.
Proof. apply merge_sort_Permutation. Qed.

Lemma pretty_zero : pretty 0 = "0".
Proof. vm_compute. reflexivity. Qed.

Lemma load_conditions_ok (dirs : list path) out acc :
  Forall (λ d, is_Some (condition_mapping !! d.1) →
               Forall (λ f, is_ok (features_of_file f) = true) (glob_csv d.2))
         dirs →
  is_ok (load_conditions dirs out acc).2 = true.
Proof.
  intros Hall. revert out acc.
  induction Hall as [|d dirs Hd _ IH]; intros out acc; [done|].
  cbn [load_conditions].
  destruct (condition_mapping !! d.1) as [label|] eqn:Hlabel; [|apply IH].
  assert (Hfiles : Forall (λ f, is_ok (features_of_file f) = true)
                          (sorted_paths (glob_csv d.2))).
  { rewrite sorted_paths_perm. apply Hd. by exists label. }
  pose proof (for_each_load_file_ok label _ acc Hfiles) as Hok.
  destruct (for_each (load_file label) (sorted_paths (glob_csv d.2)) acc);
    [apply IH|done].
Qed.

(** C5, as the code has it.  The loader raises nothing for a recognized
    class subdirectory without matching files: when the root exists, has a
    subdirectory and every matching file of a recognized class reads as a
    table with at least one row, the loader returns, whether or not some
    class is empty; a class without matching files adds no sample, prints
    its count of 0 and the loop goes on. *)
Theorem empty_class_raises_nothing fs directory entries :
  fs directory = Some (Dir entries) →
  (∃ d, d ∈ entries ∧ is_dir d.2) →
  (∀ d f, d ∈ entries → is_dir d.2 → is_Some (condition_mapping !! d.1) →
          f ∈ glob_csv d.2 → ∃ rs, f.2 = File (Ok rs) ∧ rs ≠ []) →
  is_ok (load_csv_data_with_features fs directory).2 = true
  ∧ ∀ name children label dirs out acc,
      condition_mapping !! name = Some label →
      glob_csv children = [] →
      load_conditions ((name, children) :: dirs) out acc
      = load_conditions dirs
          (out ++ ["Extracted features from 0 samples in " +:+ name
                     +:+ " condition"]) acc.
Proof.
  intros Hroot [d0 [Hd0 Hdir0]] Hfiles. split.
  - unfold load_csv_data_with_features. rewrite Hroot. cbn [iterdir].
    generalize (merge_sort String.le (elements (dom condition_mapping))).
    intros condition_names.
    match goal with |- context [sorted_paths ?l] => set (dirs := l) end.
    assert (Hin : d0 ∈ dirs).
    { by apply list_elem_of_filter. }
    assert (Hall : Forall (λ d, is_Some (condition_mapping !! d.1) →
                     Forall (λ f, is_ok (features_of_file f) = true)
                            (glob_csv d.2))
                     (sorted_paths dirs)).
    { rewrite sorted_paths_perm. apply Forall_forall.
      intros d [Hdir Hd]%list_elem_of_filter Hsome.
      apply Forall_forall. intros [name child] Hf.
      destruct (Hfiles d (name, child) Hd Hdir Hsome Hf) as [rs [Hread Hrs]].
      simpl in Hread. subst child. by rewrite features_of_file_ok. }
    pose proof (load_conditions_ok _ [] ([], []) Hall) as Hok.
    clearbody dirs. destruct dirs as [|d1 ds].
    { by apply elem_of_nil in Hin. }
    destruct (load_conditions _ _ _) as [out1 [[X1 y1]|e]]; done.
  - intros name children label dirs out acc Hlabel Hglob.
    cbn [load_conditions fst snd]. rewrite Hlabel, Hglob.
    change (sorted_paths []) with (@nil path).
    cbn [for_each length]. by rewrite pretty_zero.
Qed.

Lemma scenario_entries_readable (d f : path) :
  d ∈ [("normal", Dir [("s2.csv", File (Ok [xyz 1; xyz 2]%float));
                       ("s1.csv", File (Ok [xyz 3]%float));
                       ("notes.txt", File (Raise (OSError "not a table")))]);
       ("misalignment", Dir []);
       ("bearing", Dir [("s1.csv", File (Ok [xyz 4]%float))]);
       ("unknown_condition", Dir [("s1.csv", File (Ok [xyz 5]%float))]);
       ("README.md", File (Raise (OSError "not a table")))] →
  is_dir d.2 → is_Some (condition_mapping !! d.1) → f ∈ glob_csv d.2 →
  ∃ rs, f.2 = File (Ok rs) ∧ rs ≠ [].
Proof.
  rewrite !elem_of_cons, elem_of_nil.
  intros [->|[->|[->|[->|[->|[]]]]]] Hdir Hsome Hf.
  - vm_compute in Hf. apply elem_of_cons in Hf as [->|Hf]; [by eauto|].
    apply elem_of_cons in Hf as [->|Hf]; [by eauto|].
    by apply elem_of_nil in Hf.
  - vm_compute in Hf. by apply elem_of_nil in Hf.
  - vm_compute in Hf. apply elem_of_cons in Hf as [->|Hf]; [by eauto|].
    by apply elem_of_nil in Hf.
  - vm_compute in Hsome. by destruct Hsome.
  - done.
Qed.

Lemma empty_class_raises_nothing_witness :
  is_ok (load_csv_data_with_features scenario_fs "train").2 = true
  ∧ ∀ name children label dirs out acc,
      condition_mapping !! name = Some label →
      glob_csv children = [] →
      load_conditions ((name, children) :: dirs) out acc
      = load_conditions dirs
          (out ++ ["Extracted features from 0 samples in " +:+ name
                     +:+ " condition"]) acc.
Proof.
  apply (empty_class_raises_nothing scenario_fs "train" _ eq_refl).
  - exists ("misalignment", Dir []). split; [|done].
    rewrite !elem_of_cons. auto.
  - apply scenario_entries_readable.
Defined.

(** C5 as stated fails: [misalignment/] is a recognized class and holds no
    file, and the loader returns normally with no sample at all. *)
Lemma empty_class_is_no_error :
  load_csv_data_with_features empty_class_fs "train"
  = (["Extracted features from 0 samples in misalignment condition"],
     Ok ([], [], ["bearing"; "imbalance"; "misalignment"; "normal"])).
Proof. vm_compute. reflexivity. Qed.

(** ** Sorted traversal *)

Global Instance path_le_total : Total path_le.
Proof. intros p q. unfold path_le. apply total, _. Qed.

Global Instance path_le_trans : Transitive path_le.
Proof. intros p q r. unfold path_le. apply transitivity. Qed.

Lemma sorted_paths_sorted (ps : list path) : Sorted path_le (sorted_paths ps).
Proof. apply (Sorted_merge_sort path_le). Qed.

Lemma sorted_paths_names_sorted (ps : list path) :
  Sorted String.le (sorted_paths ps).*1.
Proof.
  apply (Sorted_fmap (A:=path) fst path_le String.le);
    [|apply sorted_paths_sorted].
  by intros p q.
Qed.

(** Sorting forgets the order of the listing, as far as names go. *)
Lemma sorted_paths_names (ps qs : list path) :
  ps.*1 ≡ₚ qs.*1 → (sorted_paths ps).*1 = (sorted_paths qs).*1.
Proof.
  intros Hperm. apply (Sorted_unique String.le).
  - apply sorted_paths_names_sorted.
  - apply sorted_paths_names_sorted.
  - by rewrite !sorted_paths_perm.
Qed.

Lemma same_entry_names (ps qs : list path) :
  Forall2 same_entry ps qs → ps.*1 = qs.*1.
Proof. induction 1 as [|p q ps qs [Hname _] _ IH]; csimpl; congruence. Qed.

Lemma same_listing_names (ps qs : list path) :
  same_listing ps qs → ps.*1 ≡ₚ qs.*1.
Proof.
  intros (ps' & Hperm & Hall). rewrite Hperm.
  by rewrite (same_entry_names _ _ Hall).
Qed.

Lemma distinct_names_value (ps : list path) name n n' :
  distinct_names ps → (name, n) ∈ ps → (name, n') ∈ ps → n = n'.
Proof.
  unfold distinct_names. induction ps as [|[k v] ps IH]; csimpl.
  - by intros _ ?%elem_of_nil.
  - intros [Hk Hnodup]%NoDup_cons Hn Hn'.
    assert (Hfresh : ∀ m, (k, m) ∉ ps).
    { intros m Hm. apply Hk. apply list_elem_of_fmap. by exists (k, m). }
    apply elem_of_cons in Hn as [Hn|Hn], Hn' as [Hn'|Hn'].
    + congruence.
    + injection Hn as -> _. by destruct (Hfresh n').
    + injection Hn' as -> _. by destruct (Hfresh n).
    + by apply IH.
Qed.

(** With distinct names, equally named entries of two listings of one
    directory hold the same tree. *)
Lemma same_listing_lookup (ps qs : list path) name n n' :
  same_listing ps qs → distinct_names ps →
  (name, n) ∈ ps → (name, n') ∈ qs → same_tree n n'.
Proof.
  intros Hsame Hdistinct Hn Hn'.
  assert (Hq : distinct_names qs).
  { unfold distinct_names in *. by rewrite <- (same_listing_names _ _ Hsame). }
  destruct Hsame as (ps' & Hperm & Hall).
  rewrite Hperm in Hn. apply list_elem_of_lookup in Hn as [i Hi].
  destruct (Forall2_lookup_l _ _ _ _ _ Hall Hi) as ([k v] & Hk & Hname & Htree).
  simpl in Hname, Htree. subst k.
  apply list_elem_of_lookup_2 in Hk.
  by rewrite <- (distinct_names_value qs name v n' Hq Hk Hn').
Qed.

Lemma same_names_pointwise (ps qs : list path) :
  ps.*1 = qs.*1 →
  (∀ name n n', (name, n) ∈ ps → (name, n') ∈ qs → same_tree n n') →
  Forall2 same_entry ps qs.
Proof.
  revert qs. induction ps as [|[k v] ps IH]; intros [|[k' v'] qs]; csimpl;
    intros Hnames Hrel; try discriminate Hnames.
  - constructor.
  - injection Hnames as <- Hnames. constructor.
    + split; [done|]. apply (Hrel k); apply elem_of_cons; by left.
    + apply IH; [done|]. intros name n n' Hn Hn'.
      apply (Hrel name); apply elem_of_cons; by right.
Qed.

(** Two listings of one directory are visited entry by entry alike. *)
Lemma sorted_paths_same_listing (ps qs : list path) :
  same_listing ps qs → distinct_names ps →
  Forall2 same_entry (sorted_paths ps) (sorted_paths qs).
Proof.
  intros Hsame Hdistinct. apply same_names_pointwise.
  - apply sorted_paths_names. by apply same_listing_names.
  - intros name n n' Hn Hn'. rewrite sorted_paths_perm in Hn, Hn'.
    by apply (same_listing_lookup ps qs name).
Qed.

Lemma same_listing_filter (P : path → Prop) `{∀ p, Decision (P p)}
    (ps qs : list path) :
  (∀ p q, same_entry p q → P p ↔ P q) →
  same_listing ps qs → same_listing (filter P ps) (filter P qs).
Proof.
  intros HP (ps' & Hperm & Hall). exists (filter P ps'). split.
  - by rewrite Hperm.
  - by apply Forall2_filter.
Qed.

Lemma distinct_names_filter (P : path → Prop) `{∀ p, Decision (P p)}
    (ps : list path) :
  distinct_names ps → distinct_names (filter P ps).
Proof.
  unfold distinct_names. induction ps as [|p ps IH]; [done|].
  csimpl. intros [Hp Hnodup]%NoDup_cons. rewrite filter_cons.
  destruct (decide (P p)); [|by apply IH]. csimpl. apply NoDup_cons.
  split; [|by apply IH]. intros Hin. apply Hp.
  apply list_elem_of_fmap in Hin as [q [-> Hq]].
  apply list_elem_of_filter in Hq as [_ Hq].
  apply list_elem_of_fmap. by exists q.
Qed.

Lemma same_tree_is_dir (n n' : node) : same_tree n n' → is_dir n = is_dir n'.
Proof. by destruct 1. Qed.

Lemma same_tree_read (n n' : node) :
  same_tree n n' → read_sequence n = read_sequence n'.
Proof. by destruct 1. Qed.

Lemma same_tree_children (es es' : list path) :
  same_tree (Dir es) (Dir es') → same_listing es es'.
Proof. inversion 1 as [|? ? es'' Hperm Hall]; subst. by exists es''. Qed.

Lemma same_tree_glob (n n' : node) :
  same_tree n n' → same_listing (glob_csv n) (glob_csv n').
Proof.
  intros Hsame. destruct n as [r|es], n' as [r'|es']; try by inversion Hsame.
  - exists []. by split.
  - apply same_listing_filter; [|by apply same_tree_children].
    by intros p q [-> _].
Qed.

Lemma for_each_same_entries (label : nat) (ps qs : list path) acc :
  Forall2 same_entry ps qs →
  for_each (load_file label) ps acc = for_each (load_file label) qs acc.
Proof.
  intros Hall. revert acc.
  induction Hall as [|p q ps qs [_ Htree] _ IH]; intros acc; [done|].
  cbn [for_each]. rewrite !load_file_features. unfold features_of_file.
  rewrite (same_tree_read _ _ Htree).
  destruct (read_sequence q.2 ≫= extract_features_from_sequence); [|done].
  apply IH.
Qed.

Lemma load_conditions_same_entries (ps qs : list path) out acc :
  Forall2 same_entry ps qs →
  Forall (λ p, ∀ children, p.2 = Dir children → distinct_names children) ps →
  load_conditions ps out acc = load_conditions qs out acc.
Proof.
  intros Hall. revert out acc.
  induction Hall as [|p q ps qs [Hname Htree] _ IH]; intros out acc Hdistinct;
    [done|].
  apply Forall_cons in Hdistinct as [Hp Hdistinct].
  cbn [load_conditions]. rewrite <- Hname.
  destruct (condition_mapping !! p.1) as [label|]; [|by apply IH].
  assert (Hfiles : Forall2 same_entry (sorted_paths (glob_csv p.2))
                                      (sorted_paths (glob_csv q.2))).
  { apply sorted_paths_same_listing; [by apply same_tree_glob|].
    destruct p as [name [r|children]]; [constructor|].
    apply distinct_names_filter. by apply Hp. }
  rewrite (for_each_same_entries label _ _ acc Hfiles).
  rewrite (Forall2_length _ _ _ Hfiles).
  destruct (for_each (load_file label) (sorted_paths (glob_csv q.2)) acc);
    [by apply IH|done].
Qed.

(** The loader does not see the order in which a directory is listed. *)
Lemma loader_listing_order fs fs' directory entries entries' :
  fs directory = Some (Dir entries) → fs' directory = Some (Dir entries') →
  same_listing entries entries' → distinct_names2 entries →
  load_csv_data_with_features fs directory
  = load_csv_data_with_features fs' directory.
Proof.
  intros Hfs Hfs' Hsame [Hdistinct Hchildren].
  unfold load_csv_data_with_features. rewrite Hfs, Hfs'. cbn [iterdir].
  generalize (merge_sort String.le (elements (dom condition_mapping))).
  intros condition_names.
  assert (Hdirs : same_listing (filter (λ d, Is_true (is_dir d.2)) entries)
                               (filter (λ d, Is_true (is_dir d.2)) entries')).
  { apply same_listing_filter; [|done].
    intros p q [_ Htree]. by rewrite (same_tree_is_dir _ _ Htree). }
  pose proof (distinct_names_filter (λ d, Is_true (is_dir d.2)) _ Hdistinct)
    as Hdd.
  pose proof (sorted_paths_same_listing _ _ Hdirs Hdd) as Hsorted.
  assert (Hall : Forall (λ p, ∀ children, p.2 = Dir children →
                              distinct_names children)
                   (sorted_paths (filter (λ d, Is_true (is_dir d.2)) entries))).
  { rewrite sorted_paths_perm. apply Forall_forall.
    intros [name n] [_ Hin]%list_elem_of_filter children Hn.
    simpl in Hn. subst n. by apply (Hchildren name). }
  rewrite (load_conditions_same_entries _ _ [] ([], []) Hsorted Hall).
  assert (Hlen : length (filter (λ d, Is_true (is_dir d.2)) entries)
                 = length (filter (λ d, Is_true (is_dir d.2)) entries')).
  { destruct Hdirs as (ps' & Hperm & Hall'). rewrite Hperm.
    by eapply Forall2_length. }
  revert Hlen.
  generalize (load_conditions
    (sorted_paths (filter (λ d, Is_true (is_dir d.2)) entries')) [] ([], [])).
  intros run.
  destruct (filter (λ d, Is_true (is_dir d.2)) entries),
           (filter (λ d, Is_true (is_dir d.2)) entries'); done.
Qed.

(** C9. The loader visits the class subdirectories sorted by name and,
    within each, the sample files sorted by name: the rows it returns are
    those of [samples_in_order], in that order.  Hence two listings of one
    directory tree, in whatever order the system enumerates them, are loaded
    to the same result. *)
Theorem loader_order_is_canonical fs fs' directory entries entries' :
  fs directory = Some (Dir entries) → fs' directory = Some (Dir entries') →
  same_listing entries entries' → distinct_names2 entries →
  (∀ ps, Sorted path_le (sorted_paths ps) ∧ sorted_paths ps ≡ₚ ps)
  ∧ (∀ out X y names,
       load_csv_data_with_features fs directory = (out, Ok (X, y, names)) →
       y = (samples_in_order entries).*2
       ∧ Forall2 (λ s x, features_of_file s.1 = Ok x)
                 (samples_in_order entries) X)
  ∧ load_csv_data_with_features fs directory
    = load_csv_data_with_features fs' directory.
Proof.
  intros Hfs Hfs' Hsame Hdistinct. split; [|split].
  - intros ps. split; [apply sorted_paths_sorted|apply sorted_paths_perm].
  - intros out X y names Hrun.
    destruct (loader_returns _ _ _ _ _ _ Hrun) as (entries0 & Hfs0 & HX & Hy).
    rewrite Hfs in Hfs0. injection Hfs0 as <-. by split.
  - by apply (loader_listing_order fs fs' directory entries entries').
Qed.

Lemma scenario_same_listing :
  same_listing
    [("normal", Dir [("s2.csv", File (Ok [xyz 1; xyz 2]%float));
                     ("s1.csv", File (Ok [xyz 3]%float));
                     ("notes.txt", File (Raise (OSError "not a table")))]);
     ("misalignment", Dir []);
     ("bearing", Dir [("s1.csv", File (Ok [xyz 4]%float))]);
     ("unknown_condition", Dir [("s1.csv", File (Ok [xyz 5]%float))]);
     ("README.md", File (Raise (OSError "not a table")))]
    [("README.md", File (Raise (OSError "not a table")));
     ("unknown_condition", Dir [("s1.csv", File (Ok [xyz 5]%float))]);
     ("bearing", Dir [("s1.csv", File (Ok [xyz 4]%float))]);
     ("misalignment", Dir []);
     ("normal", Dir [("notes.txt", File (Raise (OSError "not a table")));
                     ("s1.csv", File (Ok [xyz 3]%float));
                     ("s2.csv", File (Ok [xyz 1; xyz 2]%float))])].
Proof.
  eexists. split; [symmetry; apply reverse_Permutation|].
  cbv [reverse rev_append].
  repeat match goal with
  | |- Forall2 _ [] [] => constructor
  | |- Forall2 _ (_ :: _) (_ :: _) => constructor
  | |- same_entry _ _ => split; [reflexivity|]
  | |- _ ∧ same_tree _ _ => split; [reflexivity|]
  | |- same_tree (File _) (File _) => apply same_file
  | |- same_tree (Dir ?es) (Dir ?es) =>
      apply (same_dir es es es); [reflexivity|]
  | |- same_tree (Dir ?es) (Dir ?es') =>
      apply (same_dir es es' (reverse es));
        [symmetry; apply reverse_Permutation|cbv [reverse rev_append]]
  | |- same_tree ?n ?n' => progress simpl
  end.
Qed.

Lemma scenario_distinct_names :
  distinct_names2
    [("normal", Dir [("s2.csv", File (Ok [xyz 1; xyz 2]%float));
                     ("s1.csv", File (Ok [xyz 3]%float));
                     ("notes.txt", File (Raise (OSError "not a table")))]);
     ("misalignment", Dir []);
     ("bearing", Dir [("s1.csv", File (Ok [xyz 4]%float))]);
     ("unknown_condition", Dir [("s1.csv", File (Ok [xyz 5]%float))]);
     ("README.md", File (Raise (OSError "not a table")))].
Proof.
  split.
  - unfold distinct_names. csimpl. apply (bool_decide_unpack _).
    vm_compute. reflexivity.
  - intros name children. rewrite !elem_of_cons, elem_of_nil.
    intros [[= _ ->]|[[= _ ->]|[[= _ ->]|[[= _ ->]|[[=]|[]]]]]];
      unfold distinct_names; csimpl; apply (bool_decide_unpack _);
      vm_compute; reflexivity.
Qed.

Lemma loader_order_is_canonical_witness :
  (∀ ps, Sorted path_le (sorted_paths ps) ∧ sorted_paths ps ≡ₚ ps)
  ∧ (∀ out X y names,
       load_csv_data_with_features scenario_fs "train"
       = (out, Ok (X, y, names)) →
       y = (samples_in_order
              [("normal", Dir [("s2.csv", File (Ok [xyz 1; xyz 2]%float));
                               ("s1.csv", File (Ok [xyz 3]%float));
                               ("notes.txt",
                                File (Raise (OSError "not a table")))]);
               ("misalignment", Dir []);
               ("bearing", Dir [("s1.csv", File (Ok [xyz 4]%float))]);
               ("unknown_condition",
                Dir [("s1.csv", File (Ok [xyz 5]%float))]);
               ("README.md", File (Raise (OSError "not a table")))]).*2
       ∧ Forall2 (λ s x, features_of_file s.1 = Ok x)
           (samples_in_order
              [("normal", Dir [("s2.csv", File (Ok [xyz 1; xyz 2]%float));
                               ("s1.csv", File (Ok [xyz 3]%float));
                               ("notes.txt",
                                File (Raise (OSError "not a table")))]);
               ("misalignment", Dir []);
               ("bearing", Dir [("s1.csv", File (Ok [xyz 4]%float))]);
               ("unknown_condition",
                Dir [("s1.csv", File (Ok [xyz 5]%float))]);
               ("README.md", File (Raise (OSError "not a table")))]) X)
  ∧ load_csv_data_with_features scenario_fs "train"
    = load_csv_data_with_features scenario_fs' "train".
Proof.
  exact (loader_order_is_canonical scenario_fs scenario_fs' "train" _ _
           eq_refl eq_refl scenario_same_listing scenario_distinct_names).
Defined.

(** ** IEEE binary64 facts *)

Section ieee.
Local Open Scope float_scope.

Lemma Prim2SF_zero : Prim2SF 0 = S754_zero false.
Proof. reflexivity. Qed.

Lemma SFcompare_refl (x : spec_float) :
  x ≠ S754_nan → SFcompare x x = Some Eq.
Proof.
  destruct x as [s|s| |s m e]; intros Hx; try done; simpl.
  - by destruct s.
  - rewrite Z.compare_refl, Pos.compare_cont_refl. by destruct s.
Qed.

(** A float below zero is not NaN and has its sign bit set. *)
Lemma negative_signbit (x : float) :
  (x <? 0) = true → PrimFloat.is_nan x = false ∧ PrimFloat.get_sign x = true.
Proof.
  intros Hneg. pose proof Hneg as Hlt.
  rewrite FloatAxioms.ltb_spec, Prim2SF_zero in Hlt. unfold SFltb in Hlt.
  assert (Hnan : Prim2SF x ≠ S754_nan).
  { intros Hx. by rewrite Hx in Hlt. }
  split.
  - unfold PrimFloat.is_nan. rewrite FloatAxioms.eqb_spec. unfold SFeqb.
    by rewrite SFcompare_refl.
  - unfold PrimFloat.get_sign, PrimFloat.is_zero.
    rewrite FloatAxioms.eqb_spec. unfold SFeqb.
    change (Prim2SF zero) with (S754_zero false).
    destruct (SFcompare (Prim2SF x) (S754_zero false)) as [[]|]; try done.
Qed.

(** A finite float is a zero or a finite number. *)
Lemma finite_Prim2SF (z : float) :
  PrimFloat.is_finite z = true →
  (∃ s, Prim2SF z = S754_zero s) ∨ (∃ s m e, Prim2SF z = S754_finite s m e).
Proof.
  unfold PrimFloat.is_finite, PrimFloat.is_nan, PrimFloat.is_infinity.
  rewrite !FloatAxioms.eqb_spec, FloatAxioms.abs_spec. unfold SFeqb.
  change (Prim2SF infinity) with (S754_infinity false).
  destruct (Prim2SF z) as [s|s| |s m e]; simpl; try done; eauto.
  rewrite orb_true_r. done.
Qed.

(** With a zero scale the noise is the positive zero, whatever the variate. *)
Lemma zero_scale_noise (z : float) :
  PrimFloat.is_finite z = true → 0 + 0 * z = 0.
Proof.
  intros Hz. apply Prim2SF_inj.
  rewrite FloatAxioms.add_spec, FloatAxioms.mul_spec, Prim2SF_zero.
  destruct (finite_Prim2SF z Hz) as [[s ->]|(s & m & e & ->)]; simpl;
    by destruct s.
Qed.
End ieee.

(** *** Rounding keeps the sign and never invents a NaN *)

Section rounding.
Local Open Scope Z_scope.

Lemma sf_nonzero_signed s x : sf_nonzero s x → sf_signed s x.
Proof. by destruct x. Qed.

Lemma shr_m_of_loc m l : shr_m (shr_record_of_loc m l) = m.
Proof. by destruct l as [|[]]. Qed.

Lemma shr_1_digits mrs :
  0 ≤ shr_m mrs →
  0 ≤ shr_m (shr_1 mrs)
  ∧ Zdigits2 (shr_m (shr_1 mrs)) = Z.max 0 (Zdigits2 (shr_m mrs) - 1).
Proof.
  destruct mrs as [m r s]. destruct m as [|[p|p|]|p]; simpl; lia.
Qed.

Lemma iter_pos_shr_1 p mrs :
  0 ≤ shr_m mrs →
  0 ≤ shr_m (SpecFloat.iter_pos shr_1 p mrs)
  ∧ Zdigits2 (shr_m (SpecFloat.iter_pos shr_1 p mrs))
    = Z.max 0 (Zdigits2 (shr_m mrs) - Z.pos p).
Proof.
  revert mrs. induction p as [p IH|p IH|]; intros mrs Hm; simpl SpecFloat.iter_pos.
  - destruct (shr_1_digits mrs Hm) as [H1 D1].
    destruct (IH _ H1) as [H2 D2]. destruct (IH _ H2) as [H3 D3].
    split; [done|]. rewrite D3, D2, D1. lia.
  - destruct (IH _ Hm) as [H2 D2]. destruct (IH _ H2) as [H3 D3].
    split; [done|]. rewrite D3, D2. lia.
  - apply shr_1_digits, Hm.
Qed.

Lemma Zdigits2_pos m : 0 ≤ m → 0 < Zdigits2 m → 0 < m.
Proof. destruct m; simpl; lia. Qed.


Lemma shr_fexp_pos m e l :
  0 < m → emin ≤ e →
  0 < shr_m (shr_fexp prec emax m e l).1 ∧ emin ≤ (shr_fexp prec emax m e l).2.
Proof.
  intros Hm He. unfold shr_fexp, shr.
  destruct (fexp prec emax (Zdigits2 m + e) - e) as [|p|p] eqn:Hn; simpl;
    rewrite ?shr_m_of_loc; try done.
  destruct (iter_pos_shr_1 p (shr_record_of_loc m l)) as [H1 D1].
  { rewrite shr_m_of_loc. lia. }
  rewrite shr_m_of_loc in D1. split; [|lia].
  apply Zdigits2_pos; [done|]. rewrite D1.
  unfold fexp, SpecFloat.emin, prec, emax in *. lia.
Qed.


Lemma round_nearest_even_pos m l : 0 < m → 0 < round_nearest_even m l.
Proof. destruct l as [|[]]; simpl; try lia. destruct (Z.even m); lia. Qed.


(** Rounding a positive mantissa at an exponent of the format does not
    underflow to zero. *)
Lemma binary_round_aux_nonzero s m e l :
  0 < m → emin ≤ e → sf_nonzero s (binary_round_aux prec emax s m e l).
Proof.
  intros Hm He. unfold binary_round_aux.
  destruct (shr_fexp_pos m e l Hm He) as [H1 E1].
  destruct (shr_fexp prec emax m e l) as [mrs1 e1]. simpl in H1, E1.
  destruct (shr_fexp_pos _ e1 loc_Exact
    (round_nearest_even_pos _ (loc_of_shr_record mrs1) H1) E1) as [H2 E2].
  destruct (shr_fexp prec emax _ e1 loc_Exact) as [mrs2 e2]. simpl in H2.
  destruct (shr_m mrs2) as [|q|q]; simpl;
    [lia|by destruct (e2 <=? emax - prec)|lia].
Qed.

Lemma shl_align_exponent mx ex ex' :
  emin ≤ ex → emin ≤ ex' → emin ≤ (shl_align mx ex ex').2.
Proof. intros. unfold shl_align. by destruct (ex' - ex). Qed.

Lemma fexp_emin e : emin ≤ fexp prec emax e.
Proof. unfold fexp. lia. Qed.


Lemma binary_round_nonzero s mx ex :
  emin ≤ ex → sf_nonzero s (binary_round prec emax s mx ex).
Proof.
  intros He. unfold binary_round.
  pose proof (shl_align_exponent mx ex
    (fexp prec emax (Z.pos (digits2_pos mx) + ex)) He (fexp_emin _)) as Hz.
  destruct (shl_align _ _ _) as [mz ez]. simpl in Hz.
  by apply binary_round_aux_nonzero.
Qed.

(** The exponent of a float is one of the format. *)
Lemma valid_exponent s m e : valid_binary (S754_finite s m e) = true → emin ≤ e.
Proof.
  unfold SpecFloat.valid_binary, bounded, canonical_mantissa, fexp.
  intros [Hc _]%andb_prop. apply Z.eqb_eq in Hc. lia.
Qed.
End rounding.

(** *** Sums and signed zeros *)

Section signed_zero.
Local Open Scope float_scope.

(** A sum is the negative zero only if both terms are. *)
Lemma add_neg_zero (x y : float) :
  Prim2SF (x + y) = S754_zero true →
  Prim2SF x = S754_zero true ∧ Prim2SF y = S754_zero true.
Proof.
  rewrite FloatAxioms.add_spec.
  pose proof (Prim2SF_valid x) as Vx. pose proof (Prim2SF_valid y) as Vy.
  destruct (Prim2SF x) as [sx|sx| |sx mx ex], (Prim2SF y) as [sy|sy| |sy my ey];
    simpl; try done.
  - by destruct sx, sy.
  - by destruct sx, sy.
  - intros Hsum. exfalso.
    pose proof (valid_exponent _ _ _ Vx). pose proof (valid_exponent _ _ _ Vy).
    unfold binary_normalize in Hsum.
    destruct (_ + _)%Z as [|m|m]; [done| |].
    + pose proof (binary_round_nonzero false m (Z.min ex ey)) as Hnz.
      rewrite Hsum in Hnz. apply Hnz. lia.
    + pose proof (binary_round_nonzero true m (Z.min ex ey)) as Hnz.
      rewrite Hsum in Hnz. apply Hnz. lia.
Qed.

(** Adding the positive zero changes nothing but the negative zero. *)
Lemma add_zero_r (a : float) : not_neg_zero a → a + 0 = a.
Proof.
  unfold not_neg_zero. intros Ha.
  apply Prim2SF_inj. rewrite FloatAxioms.add_spec, Prim2SF_zero.
  by destruct (Prim2SF a) as [[]|s| |s m e].
Qed.

Lemma add_add_zero_r (x y : float) :
  not_neg_zero x → (x + y) + 0 = x + y.
Proof.
  intros Hx. apply add_zero_r. intros Hsum.
  by destruct (add_neg_zero x y Hsum).
Qed.
End signed_zero.

(** ** Synthesis *)

Section synthesis_facts.
Context {F : Type} `{Scalar F} {rng : Type}.
Variable init_genrand : Z → rng.
Variable legacy_gauss : rng → F * rng.
Variable np_sin : F → F.

(** One run of [synthesize], step by step. *)
Lemma synthesize_run (timestamps : list F) (spec : SynthesisSpec F) (g : rng) :
  synthesize init_genrand legacy_gauss np_sin timestamps spec g
  = if bool_decide (0 ≤ seed spec < 2 ^ 32)%Z then
      if negb (f_isnan (noise_std spec)) && f_signbit (noise_std spec) then
        (Raise (ValueError "scale < 0"), init_genrand (seed spec))
      else
        let draws :=
          gauss_fill legacy_gauss (length timestamps)
                     (init_genrand (seed spec)) in
        (Ok (np_add (map (clean_signal np_sin spec) timestamps)
                    (map (λ z, f_add f_zero (f_mul (noise_std spec) z))
                         draws.1)),
         draws.2)
    else (Raise (ValueError "Seed must be between 0 and 2**32 - 1"), g).
Proof.
  unfold synthesize, channel, mbind, np_random_bind, np_random_seed,
    np_random_normal, mret, np_random_ret.
  destruct (bool_decide (0 ≤ seed spec < 2 ^ 32)%Z); [|done].
  destruct (negb (f_isnan (noise_std spec)) && f_signbit (noise_std spec));
    [done|].
  by destruct (gauss_fill legacy_gauss (length timestamps)
                          (init_genrand (seed spec))).
Qed.

(** One run of [add_noise] with a seed. *)
Lemma add_noise_run (signal : list F) (noise_level : F) (s : Z) (g : rng) :
  add_noise init_genrand legacy_gauss signal noise_level (Some s) g
  = if bool_decide (0 ≤ s < 2 ^ 32)%Z then
      if negb (f_isnan noise_level) && f_signbit noise_level then
        (Raise (ValueError "scale < 0"), init_genrand s)
      else
        let draws :=
          gauss_fill legacy_gauss (length signal) (init_genrand s) in
        (Ok (np_add signal
                    (map (λ z, f_add f_zero (f_mul noise_level z)) draws.1)),
         draws.2)
    else (Raise (ValueError "Seed must be between 0 and 2**32 - 1"), g).
Proof.
  unfold add_noise, mbind, np_random_bind, np_random_seed,
    np_random_normal, mret, np_random_ret.
  destruct (bool_decide (0 ≤ s < 2 ^ 32)%Z); [|done].
  destruct (negb (f_isnan noise_level) && f_signbit noise_level); [done|].
  by destruct (gauss_fill legacy_gauss (length signal) (init_genrand s)).
Qed.

(** [synthesize] is [add_noise] on the clean sinusoid. *)
Lemma synthesize_add_noise (timestamps : list F) (spec : SynthesisSpec F) g :
  synthesize init_genrand legacy_gauss np_sin timestamps spec g
  = add_noise init_genrand legacy_gauss (map (clean_signal np_sin spec) timestamps)
      (noise_std spec) (Some (seed spec)) g.
Proof. by rewrite synthesize_run, add_noise_run, length_map. Qed.

Lemma gauss_fill_length (n : nat) (g : rng) :
  length (gauss_fill legacy_gauss n g).1 = n.
Proof.
  revert g. induction n as [|n IH]; intros g; simpl; [done|].
  destruct (legacy_gauss g) as [z g1]. specialize (IH g1).
  destruct (gauss_fill legacy_gauss n g1). simpl in *. by rewrite IH.
Qed.

Lemma gauss_fill_Forall (P : F → Prop) (n : nat) (g : rng) :
  (∀ g', P (legacy_gauss g').1) → Forall P (gauss_fill legacy_gauss n g).1.
Proof.
  intros HP. revert g. induction n as [|n IH]; intros g; simpl; [done|].
  pose proof (HP g) as Hz. destruct (legacy_gauss g) as [z g1].
  specialize (IH g1). destruct (gauss_fill legacy_gauss n g1).
  by constructor.
Qed.
End synthesis_facts.

(** C7. Two calls of [synthesize] with the same spec and the same
    timestamps return the same vector, whatever the state of the global
    generator at each call: the spec's seed resets it first.  In particular
    a second call, made on the state the first one left, repeats the
    first.  The same holds of [add_noise] and [create_noise] called with a
    seed. *)
Theorem synthesize_is_reproducible {F : Type} `{Scalar F} {rng : Type}
    (init_genrand : Z → rng) (legacy_gauss : rng → F * rng) (np_sin : F → F)
    (timestamps : list F) (spec : SynthesisSpec F) (g g' : rng) :
  (synthesize init_genrand legacy_gauss np_sin timestamps spec g).1
  = (synthesize init_genrand legacy_gauss np_sin timestamps spec g').1
  ∧ (synthesize init_genrand legacy_gauss np_sin timestamps spec
       (synthesize init_genrand legacy_gauss np_sin timestamps spec g).2).1
    = (synthesize init_genrand legacy_gauss np_sin timestamps spec g).1
  ∧ (∀ signal noise_level s,
       (add_noise init_genrand legacy_gauss signal noise_level (Some s) g).1
       = (add_noise init_genrand legacy_gauss signal noise_level (Some s) g').1)
  ∧ (∀ size noise_level s,
       (create_noise init_genrand legacy_gauss size noise_level s g).1
       = (create_noise init_genrand legacy_gauss size noise_level s g').1).
Proof.
  assert (Hany : ∀ signal noise_level s g1 g2,
    (add_noise init_genrand legacy_gauss signal noise_level (Some s) g1).1
    = (add_noise init_genrand legacy_gauss signal noise_level (Some s) g2).1).
  { intros signal noise_level s g1 g2. rewrite !add_noise_run.
    destruct (bool_decide (0 ≤ s < 2 ^ 32)%Z); [|done].
    by destruct (negb (f_isnan noise_level) && f_signbit noise_level). }
  split; [|split; [|split]].
  - rewrite !synthesize_add_noise. apply Hany.
  - rewrite !synthesize_add_noise. apply Hany.
  - intros signal noise_level s. apply Hany.
  - intros size noise_level s.
    unfold create_noise, mbind, np_random_bind, np_random_seed.
    by destruct (bool_decide (0 ≤ s < 2 ^ 32)%Z).
Qed.

(** C8. A negative [noise_std] makes [synthesize] raise, and so does
    [add_noise] with a negative noise level: [np.random.normal] refuses the
    scale before it draws anything, so no output is produced. *)
Theorem negative_noise_std_raises {rng : Type}
    (init_genrand : Z → rng) (legacy_gauss : rng → float * rng)
    (np_sin : float → float)
    (timestamps : list float) (spec : SynthesisSpec float) (g : rng) :
  (noise_std spec <? 0)%float = true →
  (∃ msg,
     (synthesize init_genrand legacy_gauss np_sin timestamps spec g).1
     = Raise (ValueError msg))
  ∧ ((0 ≤ seed spec < 2 ^ 32)%Z →
     (synthesize init_genrand legacy_gauss np_sin timestamps spec g).1
     = Raise (ValueError "scale < 0"))
  ∧ (∀ signal,
       (add_noise init_genrand legacy_gauss signal (noise_std spec) None g).1
       = Raise (ValueError "scale < 0")).
Proof.
  intros Hneg. destruct (negative_signbit _ Hneg) as [Hnan Hsign].
  assert (Hcheck : negb (f_isnan (noise_std spec))
                   && f_signbit (noise_std spec) = true).
  { simpl. by rewrite Hnan, Hsign. }
  split; [|split].
  - rewrite synthesize_run, Hcheck.
    destruct (bool_decide (0 ≤ seed spec < 2 ^ 32)%Z); eauto.
  - intros Hseed. rewrite synthesize_run, Hcheck.
    by rewrite bool_decide_eq_true_2.
  - intros signal.
    unfold add_noise, mbind, np_random_bind, mret, np_random_ret,
      np_random_normal.
    by rewrite Hcheck.
Qed.

Lemma negative_noise_std_raises_witness :
  (∃ msg,
     (synthesize counter_init counter_gauss cubic_sin timestamps_100
        (Build_SynthesisSpec 50 0.5 1 (-0.25) 42)%float 7%Z).1
     = Raise (ValueError msg))
  ∧ ((0 ≤ 42 < 2 ^ 32)%Z →
     (synthesize counter_init counter_gauss cubic_sin timestamps_100
        (Build_SynthesisSpec 50 0.5 1 (-0.25) 42)%float 7%Z).1
     = Raise (ValueError "scale < 0"))
  ∧ (∀ signal,
       (add_noise counter_init counter_gauss signal (-0.25)%float None 7%Z).1
       = Raise (ValueError "scale < 0")).
Proof.
  apply (negative_noise_std_raises counter_init counter_gauss cubic_sin
           timestamps_100 (Build_SynthesisSpec 50 0.5 1 (-0.25) 42)%float 7%Z).
  reflexivity.
Defined.

(** *** Zero noise *)

Section zero_noise.
Local Open Scope float_scope.

Lemma positive_signbit (x : float) :
  (0 <? x) = true → PrimFloat.is_nan x = false ∧ PrimFloat.get_sign x = false.
Proof.
  intros Hpos. pose proof Hpos as Hlt.
  rewrite FloatAxioms.ltb_spec, Prim2SF_zero in Hlt. unfold SFltb in Hlt.
  assert (Hnan : Prim2SF x ≠ S754_nan).
  { intros Hx. by rewrite Hx in Hlt. }
  split.
  - unfold PrimFloat.is_nan. rewrite FloatAxioms.eqb_spec. unfold SFeqb.
    by rewrite SFcompare_refl.
  - unfold PrimFloat.get_sign, PrimFloat.is_zero.
    rewrite FloatAxioms.eqb_spec. unfold SFeqb.
    change (Prim2SF zero) with (S754_zero false).
    assert (Hgt : SFcompare (Prim2SF x) (S754_zero false) = Some Gt).
    { destruct (Prim2SF x) as [s|[]| |[] m e]; simpl in *; done. }
    rewrite Hgt. rewrite FloatAxioms.ltb_spec. unfold SFltb.
    change (Prim2SF zero) with (S754_zero false). by rewrite Hgt.
Qed.

(** A standard deviation that is positive or the positive zero passes the
    scale check of [np.random.normal]. *)
Lemma scale_check_passes (scale : float) :
  (0 <? scale) = true ∨ scale = 0 →
  negb (f_isnan scale) && f_signbit scale = false.
Proof.
  intros [Hpos| ->]; [|done].
  destruct (positive_signbit _ Hpos) as [Hnan Hsign]. simpl.
  by rewrite Hnan, Hsign.
Qed.

Lemma zero_noise_vector (zs : list float) :
  Forall (λ z, PrimFloat.is_finite z = true) zs →
  map (λ z, 0 + 0 * z) zs = replicate (length zs) 0.
Proof.
  induction 1 as [|z zs Hz _ IH]; simpl; [done|].
  by rewrite IH, zero_scale_noise.
Qed.

Lemma np_add_zeros (xs : list float) :
  Forall not_neg_zero xs → np_add xs (replicate (length xs) 0) = xs.
Proof.
  unfold np_add. induction 1 as [|x xs Hx _ IH]; [done|].
  cbn [length replicate zip_with]. rewrite IH. f_equal.
  by apply add_zero_r.
Qed.

Lemma clean_signal_not_neg_zero (np_sin : float → float) spec (t : float) :
  not_neg_zero (base spec) → not_neg_zero (clean_signal np_sin spec t).
Proof.
  unfold not_neg_zero, clean_signal. simpl. intros Hbase Hsum.
  by destruct (add_neg_zero _ _ Hsum).
Qed.

End zero_noise.

(** C3. With a valid seed and a non-negative [noise_std], [synthesize]
    returns, timestamp by timestamp,
    [base + amplitude * sin(angular_rate * t) + noise], where the noise is
    [0 + noise_std * z] for the successive standard-normal variates [z] of
    the generator seeded with the spec's seed.  With [noise_std = 0] the
    noise is the zero vector, and the output is the sinusoid itself; on the
    100 timestamps 0, 0.1, ..., 9.9 with base 50, amplitude 0.5, rate 1 and
    seed 42 it is exactly [50 + 0.5 * sin(t)]. *)
Theorem synthesize_formula {rng : Type}
    (init_genrand : Z → rng) (legacy_gauss : rng → float * rng)
    (np_sin : float → float) :
  (∀ g, PrimFloat.is_finite (legacy_gauss g).1 = true) →
  (∀ timestamps spec g,
     (0 ≤ seed spec < 2 ^ 32)%Z →
     (0 <? noise_std spec)%float = true ∨ noise_std spec = 0%float →
     (synthesize init_genrand legacy_gauss np_sin timestamps spec g).1
     = Ok (zip_with PrimFloat.add
             (map (λ t, (base spec
                         + amplitude spec * np_sin (angular_rate spec * t))%float)
                  timestamps)
             (map (λ z, (0 + noise_std spec * z)%float)
                  (gauss_fill legacy_gauss (length timestamps)
                              (init_genrand (seed spec))).1)))
  ∧ (∀ timestamps spec g,
       (0 ≤ seed spec < 2 ^ 32)%Z → noise_std spec = 0%float →
       map (λ z, (0 + noise_std spec * z)%float)
           (gauss_fill legacy_gauss (length timestamps)
                       (init_genrand (seed spec))).1
       = replicate (length timestamps) 0%float
       ∧ (not_neg_zero (base spec) →
          (synthesize init_genrand legacy_gauss np_sin timestamps spec g).1
          = Ok (map (λ t, (base spec
                           + amplitude spec * np_sin (angular_rate spec * t))%float)
                    timestamps)))
  ∧ (∀ g,
       (synthesize init_genrand legacy_gauss np_sin timestamps_100
          scenario_spec g).1
       = Ok (map (λ t, (50 + 0.5 * np_sin t)%float) timestamps_100)).
Proof.
  intros Hfinite.
  assert (Hformula : ∀ timestamps spec g,
    (0 ≤ seed spec < 2 ^ 32)%Z →
    (0 <? noise_std spec)%float = true ∨ noise_std spec = 0%float →
    (synthesize init_genrand legacy_gauss np_sin timestamps spec g).1
    = Ok (np_add (map (clean_signal np_sin spec) timestamps)
            (map (λ z, (0 + noise_std spec * z)%float)
               (gauss_fill legacy_gauss (length timestamps)
                           (init_genrand (seed spec))).1))).
  { intros timestamps spec g Hseed Hstd. rewrite synthesize_run.
    rewrite bool_decide_eq_true_2 by done.
    by rewrite (scale_check_passes _ Hstd). }
  assert (Hzero : ∀ (timestamps : list float) (spec : SynthesisSpec float),
    noise_std spec = 0%float →
    map (λ z, (0 + noise_std spec * z)%float)
        (gauss_fill legacy_gauss (length timestamps)
                    (init_genrand (seed spec))).1
    = replicate (length timestamps) 0%float).
  { intros timestamps spec ->.
    rewrite zero_noise_vector by (by apply gauss_fill_Forall).
    by rewrite gauss_fill_length. }
  assert (Hclean : ∀ timestamps spec g,
    (0 ≤ seed spec < 2 ^ 32)%Z → noise_std spec = 0%float →
    not_neg_zero (base spec) →
    (synthesize init_genrand legacy_gauss np_sin timestamps spec g).1
    = Ok (map (clean_signal np_sin spec) timestamps)).
  { intros timestamps spec g Hseed Hstd Hbase.
    rewrite Hformula by auto. rewrite Hzero by done. f_equal.
    rewrite <- (length_map (clean_signal np_sin spec)).
    apply np_add_zeros, Forall_forall. intros x [t [-> _]]%list_elem_of_fmap.
    by apply clean_signal_not_neg_zero. }
  split; [exact Hformula|split].
  - intros timestamps spec g Hseed Hstd. split; [by apply Hzero|].
    by apply Hclean.
  - intros g.
    assert (Hseed : (0 ≤ seed scenario_spec < 2 ^ 32)%Z) by (simpl; lia).
    assert (Hbase : not_neg_zero (base scenario_spec)) by (by vm_compute).
    rewrite (Hclean _ _ g Hseed eq_refl Hbase).
    (* on the closed grid [1 * t] evaluates to [t] *)
    reflexivity.
Qed.

Lemma synthesize_formula_witness :
  (∀ timestamps spec g,
     (0 ≤ seed spec < 2 ^ 32)%Z →
     (0 <? noise_std spec)%float = true ∨ noise_std spec = 0%float →
     (synthesize counter_init counter_gauss cubic_sin timestamps spec g).1
     = Ok (zip_with PrimFloat.add
             (map (λ t, (base spec
                         + amplitude spec * cubic_sin (angular_rate spec * t))%float)
                  timestamps)
             (map (λ z, (0 + noise_std spec * z)%float)
                  (gauss_fill counter_gauss (length timestamps)
                              (counter_init (seed spec))).1)))
  ∧ (∀ timestamps spec g,
       (0 ≤ seed spec < 2 ^ 32)%Z → noise_std spec = 0%float →
       map (λ z, (0 + noise_std spec * z)%float)
           (gauss_fill counter_gauss (length timestamps)
                       (counter_init (seed spec))).1
       = replicate (length timestamps) 0%float
       ∧ (not_neg_zero (base spec) →
          (synthesize counter_init counter_gauss cubic_sin timestamps spec g).1
          = Ok (map (λ t, (base spec
                           + amplitude spec * cubic_sin (angular_rate spec * t))%float)
                    timestamps)))
  ∧ (∀ g,
       (synthesize counter_init counter_gauss cubic_sin timestamps_100
          scenario_spec g).1
       = Ok (map (λ t, (50 + 0.5 * cubic_sin t)%float) timestamps_100)).
Proof.
  apply (synthesize_formula counter_init counter_gauss cubic_sin).
  intros g. unfold counter_gauss. simpl. destruct (Z.even g); reflexivity.
Defined.

(** *** Non-negative results *)

Section nonneg.
Local Open Scope Z_scope.



Lemma sf_nonneg_nonnan x : sf_nonneg x → x ≠ S754_nan.
Proof. by destruct x. Qed.













End nonneg.

(** *** The element count as a float *)

Section count.
Local Open Scope Z_scope.









End count.

(** ** Relations between the fields of one axis *)

Lemma feature_vector_axis {F : Type} `{Scalar F} (w : ndarray F) (j : nat) :
  j < shape1 w →
  axis_fields (feature_vector w) j = six_statistics (column w j).
Proof.
  intros Hj. unfold axis_fields. apply list_eq. intros i.
  destruct (decide (i < 6)) as [Hi|Hi].
  - rewrite lookup_take_lt, lookup_drop by done.
    by apply feature_vector_lookup.
  - rewrite lookup_take_ge by lia. symmetry. apply lookup_ge_None_2.
    simpl. lia.
Qed.

(** *** In binary64 *)

Section float_statistics.
Local Open Scope float_scope.










End float_statistics.

(** *** In exact arithmetic *)

Section real_statistics.
Local Open Scope R_scope.






End real_statistics.




(** * Properties of the other functions *)

(** ** The order of the labels *)

Lemma samples_of_labels_cons (d : path) (ds : list path) :
  (samples_of (d :: ds)).*2
  = match condition_mapping !! d.1 with
    | None => []
    | Some label => replicate (length (glob_csv d.2)) label
    end ++ (samples_of ds).*2.
Proof.
  rewrite samples_of_cons, fmap_app. f_equal.
  destruct (condition_mapping !! d.1) as [label|]; [|done].
  rewrite <- list_fmap_compose.
  rewrite <- (Permutation_length (sorted_paths_perm (glob_csv d.2))).
  induction (sorted_paths (glob_csv d.2)); csimpl; by f_equal.
Qed.

(** The labels contributed by the directories named [condition]. *)
Lemma block_cons (c : string) (label : nat) (d : path) (ds : list path) :
  replicate (length (flat_map (λ d, glob_csv d.2)
                       (filter (λ d, d.1 = c) (d :: ds)))) label
  = (if decide (d.1 = c) then replicate (length (glob_csv d.2)) label else [])
    ++ replicate (length (flat_map (λ d, glob_csv d.2)
                            (filter (λ d, d.1 = c) ds))) label.
Proof.
  rewrite filter_cons. destruct (decide (d.1 = c)); [|done].
  cbn [flat_map]. by rewrite length_app, replicate_add.
Qed.

Lemma block_above (c : string) (label : nat) (name : string) (ds : list path) :
  ¬ String.le name c →
  Forall (String.le name) ds.*1 →
  replicate (length (flat_map (λ d, glob_csv d.2)
                       (filter (λ d, d.1 = c) ds))) label = [].
Proof.
  intros Hnot Hall.
  assert (Hnil : filter (λ d : path, d.1 = c) ds = []); [|by rewrite Hnil].
  induction ds as [|d ds IH]; [done|].
  apply Forall_cons in Hall as [Hd Hall]. rewrite filter_cons.
  destruct (decide (d.1 = c)) as [<-|]; [done|by apply IH].
Qed.

Lemma sorted_labels (ds : list path) :
  Sorted String.le ds.*1 →
  (samples_of ds).*2
  = replicate (length (flat_map (λ d, glob_csv d.2)
                         (filter (λ d, d.1 = "bearing") ds))) 1
    ++ replicate (length (flat_map (λ d, glob_csv d.2)
                            (filter (λ d, d.1 = "imbalance") ds))) 3
    ++ replicate (length (flat_map (λ d, glob_csv d.2)
                            (filter (λ d, d.1 = "misalignment") ds))) 2
    ++ replicate (length (flat_map (λ d, glob_csv d.2)
                            (filter (λ d, d.1 = "normal") ds))) 0.
Proof.
  intros Hsorted. apply Sorted_StronglySorted in Hsorted; [|apply _].
  induction ds as [|d ds IH]; [done|].
  csimpl in Hsorted. apply StronglySorted_inv in Hsorted as [Hrest Hd].
  rewrite samples_of_labels_cons, (IH Hrest), !block_cons.
  destruct (condition_mapping !! d.1) as [label|] eqn:Hlabel.
  - apply condition_mapping_Some in Hlabel
      as [[Hn ->]|[[Hn ->]|[[Hn ->]|[Hn ->]]]]; rewrite Hn in Hd |- *.
    + rewrite (block_above "bearing" 1 "normal"),
        (block_above "imbalance" 3 "normal"),
        (block_above "misalignment" 2 "normal")
        by first [done | by vm_compute].
      repeat case_decide;
        first [discriminate | congruence | by rewrite ?app_nil_r, <- ?app_assoc].
    + repeat case_decide;
        first [discriminate | congruence | by rewrite ?app_nil_r, <- ?app_assoc].
    + rewrite (block_above "bearing" 1 "misalignment"),
        (block_above "imbalance" 3 "misalignment")
        by first [done | by vm_compute].
      repeat case_decide;
        first [discriminate | congruence | by rewrite ?app_nil_r, <- ?app_assoc].
    + rewrite (block_above "bearing" 1 "imbalance")
        by first [done | by vm_compute].
      repeat case_decide;
        first [discriminate | congruence | by rewrite ?app_nil_r, <- ?app_assoc].
  - assert (Hno : ∀ c label, condition_mapping !! c = Some label → d.1 ≠ c).
    { intros c label Hc Heq. congruence. }
    rewrite !decide_False; [done|..].
    + apply (Hno _ 0), condition_mapping_Some. auto.
    + apply (Hno _ 2), condition_mapping_Some. auto 6.
    + apply (Hno _ 3), condition_mapping_Some. auto 6.
    + apply (Hno _ 1), condition_mapping_Some. auto.
Qed.

Lemma flat_map_length_perm {A B} (f : A → list B) (l l' : list A) :
  l ≡ₚ l' → length (flat_map f l) = length (flat_map f l').
Proof.
  induction 1 as [|x l l' _ IH|x y l|l l' l'' _ IH _ IH']; cbn [flat_map];
    rewrite ?length_app; lia.
Qed.

Lemma csv_count_sorted (entries : list path) (c : string) :
  length (flat_map (λ d, glob_csv d.2)
            (filter (λ d, d.1 = c)
               (sorted_paths (filter (λ d, Is_true (is_dir d.2)) entries))))
  = csv_count entries c.
Proof.
  unfold csv_count. apply flat_map_length_perm.
  by rewrite sorted_paths_perm.
Qed.

Lemma condition_names_value :
  merge_sort String.le (elements (dom condition_mapping))
  = ["bearing"; "imbalance"; "misalignment"; "normal"].
Proof. vm_compute. reflexivity. Qed.

(** The labels come class by class, in the order of the class names. *)
Lemma loader_labels fs directory out X y names :
  load_csv_data_with_features fs directory = (out, Ok (X, y, names)) →
  ∃ entries,
    fs directory = Some (Dir entries)
    ∧ y = label_block entries "bearing" 1
          ++ label_block entries "imbalance" 3
          ++ label_block entries "misalignment" 2
          ++ label_block entries "normal" 0.
Proof.
  intros Hrun.
  destruct (loader_returns _ _ _ _ _ _ Hrun) as (entries & Hroot & _ & Hy).
  exists entries. split; [done|]. subst y. unfold samples_in_order.
  rewrite sorted_labels by apply sorted_paths_names_sorted.
  unfold label_block. by rewrite !csv_count_sorted.
Qed.

Lemma loader_names fs directory out X y names :
  load_csv_data_with_features fs directory = (out, Ok (X, y, names)) →
  names = ["bearing"; "imbalance"; "misalignment"; "normal"].
Proof.
  unfold load_csv_data_with_features. rewrite condition_names_value.
  destruct (fs directory) as [base_path|]; [|intros [=]].
  destruct (iterdir base_path) as [entries|e]; [|intros [=]].
  destruct (filter _ entries) as [|d ds]; [intros [=]|].
  destruct (load_conditions _ _ _) as [out1 [[X1 y1]|e]]; [|intros [=]].
  by intros [= _ _ _ <-].
Qed.

Lemma count_label_app (y y' : list nat) (i : nat) :
  count_label (y ++ y') i = count_label y i + count_label y' i.
Proof. unfold count_label. by rewrite filter_app, length_app. Qed.

Lemma count_label_replicate (n label i : nat) :
  count_label (replicate n label) i = if decide (label = i) then n else 0.
Proof.
  unfold count_label. induction n as [|n IH]; cbn [replicate].
  - by destruct (decide _).
  - rewrite filter_cons. destruct (decide (label = i)); cbn [length]; lia.
Qed.

(** X1. The samples come out class by class, in the order of the class
    names and not of the labels: first the files of bearing (label 1),
    then imbalance (3), misalignment (2) and normal (0), each class with as
    many rows as its subdirectory has [*.csv] entries. *)
Theorem loader_groups_classes fs directory out X y names :
  load_csv_data_with_features fs directory = (out, Ok (X, y, names)) →
  ∃ entries,
    fs directory = Some (Dir entries)
    ∧ y = replicate (csv_count entries "bearing") 1
          ++ replicate (csv_count entries "imbalance") 3
          ++ replicate (csv_count entries "misalignment") 2
          ++ replicate (csv_count entries "normal") 0
    ∧ length X = csv_count entries "bearing" + csv_count entries "imbalance"
                 + csv_count entries "misalignment"
                 + csv_count entries "normal".
Proof.
  intros Hrun.
  destruct (loader_labels _ _ _ _ _ _ Hrun) as (entries & Hroot & Hy).
  destruct (loader_returns _ _ _ _ _ _ Hrun) as (entries' & Hroot' & HX & Hy').
  rewrite Hroot in Hroot'. injection Hroot' as <-.
  exists entries. split; [done|]. split; [done|].
  rewrite <- (Forall2_length _ _ _ HX).
  rewrite <- (length_fmap snd), <- Hy', Hy. unfold label_block.
  rewrite !length_app, !length_replicate. lia.
Qed.

Lemma loader_groups_classes_witness :
  ∃ entries,
    scenario_fs "train" = Some (Dir entries)
    ∧ [1; 0; 0] = replicate (csv_count entries "bearing") 1
          ++ replicate (csv_count entries "imbalance") 3
          ++ replicate (csv_count entries "misalignment") 2
          ++ replicate (csv_count entries "normal") 0
    ∧ length [feature_vector (values [xyz 4]%float);
              feature_vector (values [xyz 3]%float);
              feature_vector (values [xyz 1; xyz 2]%float)]
      = csv_count entries "bearing" + csv_count entries "imbalance"
        + csv_count entries "misalignment" + csv_count entries "normal".
Proof. exact (loader_groups_classes _ _ _ _ _ _ scenario_run). Defined.

(** X2. The summary printed after loading pairs the i-th sorted class
    name with the number of labels equal to [i].  The sorted names are
    bearing, imbalance, misalignment, normal, but the labels are normal = 0,
    bearing = 1, misalignment = 2, imbalance = 3: the line of bearing
    reports the files of normal, the line of imbalance those of bearing,
    the line of normal those of imbalance; only misalignment reports its
    own. *)
Theorem class_summary_counts fs directory out X y names :
  load_csv_data_with_features fs directory = (out, Ok (X, y, names)) →
  ∃ entries,
    fs directory = Some (Dir entries)
    ∧ class_summary y names
      = ["  bearing: " +:+ pretty (csv_count entries "normal") +:+ " samples";
         "  imbalance: " +:+ pretty (csv_count entries "bearing")
            +:+ " samples";
         "  misalignment: " +:+ pretty (csv_count entries "misalignment")
            +:+ " samples";
         "  normal: " +:+ pretty (csv_count entries "imbalance")
            +:+ " samples"].
Proof.
  intros Hrun.
  destruct (loader_labels _ _ _ _ _ _ Hrun) as (entries & Hroot & Hy).
  rewrite (loader_names _ _ _ _ _ _ Hrun).
  exists entries. split; [done|].
  assert (Hcount : ∀ i,
    count_label y i
    = (if decide (1 = i) then csv_count entries "bearing" else 0)
      + ((if decide (3 = i) then csv_count entries "imbalance" else 0)
      + ((if decide (2 = i) then csv_count entries "misalignment" else 0)
      + (if decide (0 = i) then csv_count entries "normal" else 0)))).
  { intros i. subst y. unfold label_block.
    by rewrite !count_label_app, !count_label_replicate. }
  assert (H0 : count_label y 0 = csv_count entries "normal").
  { rewrite Hcount. repeat case_decide; lia. }
  assert (H1 : count_label y 1 = csv_count entries "bearing").
  { rewrite Hcount. repeat case_decide; lia. }
  assert (H2 : count_label y 2 = csv_count entries "misalignment").
  { rewrite Hcount. repeat case_decide; lia. }
  assert (H3 : count_label y 3 = csv_count entries "imbalance").
  { rewrite Hcount. repeat case_decide; lia. }
  unfold class_summary. cbn [imap compose].
  rewrite H0, H1, H2, H3. reflexivity.
Qed.

Lemma class_summary_counts_witness :
  ∃ entries,
    scenario_fs "train" = Some (Dir entries)
    ∧ class_summary [1; 0; 0] ["bearing"; "imbalance"; "misalignment"; "normal"]
      = ["  bearing: " +:+ pretty (csv_count entries "normal") +:+ " samples";
         "  imbalance: " +:+ pretty (csv_count entries "bearing")
            +:+ " samples";
         "  misalignment: " +:+ pretty (csv_count entries "misalignment")
            +:+ " samples";
         "  normal: " +:+ pretty (csv_count entries "imbalance")
            +:+ " samples"].
Proof. exact (class_summary_counts _ _ _ _ _ _ scenario_run). Defined.

(** ** The first file that fails *)

Lemma for_each_app {A B} (body : A → B → result A) (l l' : list B) (acc : A) :
  for_each body (l ++ l') acc = for_each body l acc ≫= for_each body l'.
Proof.
  revert acc. induction l as [|b l IH]; intros acc; [done|].
  cbn [app for_each]. destruct (body acc b) as [acc'|e]; [apply IH|done].
Qed.

Lemma load_sample_features acc (sample : path * nat) :
  load_sample acc sample
  = x ← features_of_file sample.1; Ok (acc.1 ++ [x], acc.2 ++ [sample.2]).
Proof. done. Qed.

Lemma for_each_load_sample (label : nat) (files : list path) acc :
  for_each (load_file label) files acc
  = for_each load_sample (map (λ f, (f, label)) files) acc.
Proof.
  revert acc. induction files as [|f files IH]; intros acc; [done|].
  cbn [map for_each]. rewrite load_file_features, load_sample_features.
  cbn [fst snd]. destruct (features_of_file f); [apply IH|done].
Qed.

(** The nested loops visit the samples one after the other. *)
Lemma load_conditions_flat (dirs : list path) out acc :
  (load_conditions dirs out acc).2 = for_each load_sample (samples_of dirs) acc.
Proof.
  revert out acc. induction dirs as [|d dirs IH]; intros out acc; [done|].
  cbn [load_conditions]. rewrite samples_of_cons, for_each_app.
  destruct (condition_mapping !! d.1) as [label|]; [|apply IH].
  rewrite <- for_each_load_sample.
  destruct (for_each (load_file label) _ acc); [apply IH|done].
Qed.

Lemma for_each_load_sample_ok (samples : list (path * nat)) acc :
  Forall (λ s, is_ok (features_of_file s.1) = true) samples →
  is_ok (for_each load_sample samples acc) = true.
Proof.
  intros Hall. revert acc.
  induction Hall as [|s samples Hs _ IH]; intros acc; [done|].
  cbn [for_each]. rewrite load_sample_features.
  destruct (features_of_file s.1); [apply IH|done].
Qed.

Lemma loader_flat fs directory entries :
  fs directory = Some (Dir entries) →
  Exists (λ d, Is_true (is_dir d.2)) entries →
  (load_csv_data_with_features fs directory).2
  = acc ← for_each load_sample (samples_in_order entries) ([], []);
    Ok (acc.1, acc.2, ["bearing"; "imbalance"; "misalignment"; "normal"]).
Proof.
  intros Hroot Hdir. unfold load_csv_data_with_features, samples_in_order.
  rewrite Hroot, condition_names_value. cbn [iterdir].
  rewrite <- (load_conditions_flat _ []).
  apply Exists_exists in Hdir as (d & Hd & Hdir).
  assert (Hin : d ∈ filter (λ d : path, Is_true (is_dir d.2)) entries).
  { by apply list_elem_of_filter. }
  destruct (filter _ entries) as [|d0 ds] eqn:Hfilter.
  { by apply elem_of_nil in Hin. }
  by destruct (load_conditions _ _ _) as [out1 [[X1 y1]|e]].
Qed.

(** X3. The loader fails fast.  With the samples in the order of the loops
    (classes by name, files by name), the first sample whose table cannot
    be read or featurised ends the run with its own exception; the
    samples before it were read, those after it never are, and no partial
    matrix is returned. *)
Theorem loader_first_failure fs directory entries before sample after e :
  fs directory = Some (Dir entries) →
  Exists (λ d, Is_true (is_dir d.2)) entries →
  samples_in_order entries = before ++ sample :: after →
  Forall (λ s, is_ok (features_of_file s.1) = true) before →
  features_of_file sample.1 = Raise e →
  (load_csv_data_with_features fs directory).2 = Raise e.
Proof.
  intros Hroot Hdir Hsamples Hbefore Hfail.
  rewrite (loader_flat _ _ _ Hroot Hdir), Hsamples, for_each_app.
  pose proof (for_each_load_sample_ok before ([], []) Hbefore) as Hok.
  destruct (for_each load_sample before ([], [])) as [acc|]; [|done].
  cbn [mbind result_bind for_each]. rewrite load_sample_features.
  by rewrite Hfail.
Qed.

Lemma broken_samples :
  samples_in_order broken_entries
  = [(("d.csv", File (Ok [xyz 3]%float)), 1);
     (("a.csv", File (Ok [xyz 1]%float)), 0)]
    ++ (("b.csv", File (Raise (KeyError "['ax'] not in index"))), 0)
    :: [(("c.csv", File (Ok [xyz 2]%float)), 0)].
Proof. vm_compute. reflexivity. Qed.

Lemma broken_before :
  Forall (λ s : path * nat, is_ok (features_of_file s.1) = true)
    [(("d.csv", File (Ok [xyz 3]%float)), 1);
     (("a.csv", File (Ok [xyz 1]%float)), 0)].
Proof. repeat constructor. Qed.

Lemma broken_has_class : Exists (λ d : path, Is_true (is_dir d.2)) broken_entries.
Proof. apply Exists_cons_hd. exact I. Qed.

Lemma loader_first_failure_witness :
  (load_csv_data_with_features broken_fs "train").2
  = Raise (KeyError "['ax'] not in index").
Proof.
  exact (loader_first_failure broken_fs "train" broken_entries _ _ _ _
           eq_refl broken_has_class broken_samples broken_before
           eq_refl).
Defined.

(** ** What a returned matrix tells about the files *)

Lemma features_of_file_inv (f : path) (x : list float) :
  features_of_file f = Ok x →
  ∃ rs, f.2 = File (Ok rs) ∧ rs ≠ [] ∧ x = feature_vector (values rs).
Proof.
  destruct f as [name [[rs|e]|children]]; unfold features_of_file;
    cbn [snd read_sequence mbind result_bind]; try done.
  destruct rs as [|r rs]; [by vm_compute|].
  intros Hx. exists (r :: rs). split; [done|]. split; [done|].
  rewrite extract_features_ok in Hx by done. by injection Hx.
Qed.

Lemma feature_vector_values_length (rs : list (float * float * float)) :
  length (feature_vector (values rs)) = 18.
Proof. by rewrite feature_vector_length. Qed.

Lemma elem_of_samples_of (ds : list path) (d f : path) (label : nat) :
  d ∈ ds → condition_mapping !! d.1 = Some label → f ∈ glob_csv d.2 →
  (f, label) ∈ samples_of ds.
Proof.
  intros Hd Hlabel Hf. induction ds as [|d' ds IH].
  { by apply elem_of_nil in Hd. }
  rewrite samples_of_cons. apply elem_of_app.
  apply elem_of_cons in Hd as [<-|Hd]; [left|right; by apply IH].
  rewrite Hlabel. apply list_elem_of_fmap. exists f. split; [done|].
  by rewrite sorted_paths_perm.
Qed.

(** X4. When the loader returns, no matching file was skipped: every
    [*.csv] entry of every subdirectory that names a class was read as a
    table with at least one row and its features are a row of the matrix;
    and every row of the matrix has 18 features, six for each of the axes
    ax, ay, az. *)
Theorem loader_reads_every_sample fs directory out X y names :
  load_csv_data_with_features fs directory = (out, Ok (X, y, names)) →
  ∃ entries,
    fs directory = Some (Dir entries)
    ∧ (∀ d f, d ∈ entries → is_dir d.2 →
              is_Some (condition_mapping !! d.1) → f ∈ glob_csv d.2 →
              ∃ rs, f.2 = File (Ok rs) ∧ rs ≠ []
                    ∧ feature_vector (values rs) ∈ X)
    ∧ Forall (λ features, length features = 18) X.
Proof.
  intros Hrun.
  destruct (loader_returns _ _ _ _ _ _ Hrun) as (entries & Hroot & HX & _).
  exists entries. split; [done|]. split.
  - intros d f Hd Hdir [label Hlabel] Hf.
    assert (Hs : (f, label) ∈ samples_in_order entries).
    { apply (elem_of_samples_of _ d); [|done..].
      rewrite sorted_paths_perm. by apply list_elem_of_filter. }
    apply list_elem_of_lookup in Hs as [i Hi].
    destruct (Forall2_lookup_l _ _ _ _ _ HX Hi) as (x & Hx & Hfx).
    destruct (features_of_file_inv _ _ Hfx) as (rs & Hread & Hrs & ->).
    exists rs. split; [done|]. split; [done|].
    by apply list_elem_of_lookup_2 in Hx.
  - apply Forall_forall. intros x Hx.
    apply list_elem_of_lookup in Hx as [i Hi].
    destruct (Forall2_lookup_r _ _ _ _ _ HX Hi) as (s & _ & Hfx).
    destruct (features_of_file_inv _ _ Hfx) as (rs & _ & _ & ->).
    apply feature_vector_values_length.
Qed.

Lemma loader_reads_every_sample_witness :
  ∃ entries,
    scenario_fs "train" = Some (Dir entries)
    ∧ (∀ d f, d ∈ entries → is_dir d.2 →
              is_Some (condition_mapping !! d.1) → f ∈ glob_csv d.2 →
              ∃ rs, f.2 = File (Ok rs) ∧ rs ≠ []
                    ∧ feature_vector (values rs)
                      ∈ [feature_vector (values [xyz 4]%float);
                         feature_vector (values [xyz 3]%float);
                         feature_vector (values [xyz 1; xyz 2]%float)])
    ∧ Forall (λ features, length features = 18)
        [feature_vector (values [xyz 4]%float);
         feature_vector (values [xyz 3]%float);
         feature_vector (values [xyz 1; xyz 2]%float)].
Proof. exact (loader_reads_every_sample _ _ _ _ _ _ scenario_run). Defined.

(** X5. The errors the loader raises for the root itself, before any file
    is opened or any line printed: a [ValueError] naming the directory
    when the path does not exist, the [OSError] of [iterdir] when the path
    is a file, and a [ValueError] when the directory has no subdirectory,
    also when the tables lie in the root itself. *)
Theorem loader_root_errors fs directory :
  (fs directory = None →
   load_csv_data_with_features fs directory
   = ([], Raise (ValueError ("Directory " +:+ directory
                               +:+ " does not exist!"))))
  ∧ (∀ read, fs directory = Some (File read) →
     load_csv_data_with_features fs directory
     = ([], Raise (OSError "Not a directory")))
  ∧ (∀ entries, fs directory = Some (Dir entries) →
     Forall (λ p, is_dir p.2 = false) entries →
     load_csv_data_with_features fs directory
     = ([], Raise (ValueError ("No condition subdirectories found in "
                                 +:+ directory)))).
Proof.
  unfold load_csv_data_with_features. split; [|split].
  - by intros ->.
  - by intros read ->.
  - intros entries -> Hfiles. cbn [iterdir].
    assert (Hnil : filter (λ d : path, Is_true (is_dir d.2)) entries = []).
    { induction Hfiles as [|p ps Hp _ IH]; [done|].
      rewrite filter_cons, IH. destruct (decide _) as [Hdir|]; [|done].
      by rewrite Hp in Hdir. }
    by rewrite Hnil.
Qed.

Lemma flat_root_files :
  Forall (λ p : path, is_dir p.2 = false) [("s1.csv", File (Ok [xyz 1]%float))].
Proof. by repeat constructor. Qed.

Lemma loader_root_errors_witness :
  load_csv_data_with_features scenario_fs "test"
  = ([], Raise (ValueError "Directory test does not exist!"))
  ∧ load_csv_data_with_features file_fs "train"
    = ([], Raise (OSError "Not a directory"))
  ∧ load_csv_data_with_features flat_fs "train"
    = ([], Raise (ValueError "No condition subdirectories found in train")).
Proof.
  split; [|split].
  - exact (proj1 (loader_root_errors scenario_fs "test") eq_refl).
  - exact (proj1 (proj2 (loader_root_errors file_fs "train")) _ eq_refl).
  - exact (proj2 (proj2 (loader_root_errors flat_fs "train")) _ eq_refl
             flat_root_files).
Defined.

(** ** Sorting looks at names only *)

Section sort_related.
Context {A : Type} (R : relation A) `{!RelDecision R}.
Context (Rel : A → A → Prop).
Hypothesis Rel_R : ∀ x y x' y', Rel x x' → Rel y y' → R x y ↔ R x' y'.

Lemma list_merge_related (l1 l1' l2 l2' : list A) :
  Forall2 Rel l1 l1' → Forall2 Rel l2 l2' →
  Forall2 Rel (list_merge R l1 l2) (list_merge R l1' l2').
Proof.
  intros H1. revert l2 l2'.
  induction H1 as [|x x' l1 l1' Hx H1 IH1]; intros l2 l2' H2.
  - by rewrite !list_merge_nil_l.
  - induction H2 as [|y y' l2 l2' Hy H2 IH2].
    + rewrite !list_merge_nil_r. by constructor.
    + rewrite !list_merge_cons.
      destruct (decide (R x y)) as [HR|HR], (decide (R x' y')) as [HR'|HR'].
      * constructor; [done|]. apply IH1. by constructor.
      * destruct HR'. by apply (Rel_R x y).
      * destruct HR. by apply (Rel_R x y x' y').
      * by constructor.
Qed.

Lemma merge_list_to_stack_related (st st' : list (option (list A))) l l' :
  Forall2 (option_Forall2 (Forall2 Rel)) st st' → Forall2 Rel l l' →
  Forall2 (option_Forall2 (Forall2 Rel))
    (merge_list_to_stack R st l) (merge_list_to_stack R st' l').
Proof.
  intros Hst. revert l l'.
  induction Hst as [|o o' st st' Ho Hst IH]; intros l l' Hl; simpl.
  - by repeat constructor.
  - destruct Ho as [k k' Hk|].
    + constructor; [constructor|]. apply IH. by apply list_merge_related.
    + by repeat constructor.
Qed.

Lemma merge_stack_related (st st' : list (option (list A))) :
  Forall2 (option_Forall2 (Forall2 Rel)) st st' →
  Forall2 Rel (merge_stack R st) (merge_stack R st').
Proof.
  induction 1 as [|o o' st st' Ho Hst IH]; simpl; [constructor|].
  destruct Ho as [k k' Hk|]; [|done]. by apply list_merge_related.
Qed.

Lemma merge_sort_aux_related (st st' : list (option (list A))) l l' :
  Forall2 (option_Forall2 (Forall2 Rel)) st st' → Forall2 Rel l l' →
  Forall2 Rel (merge_sort_aux R st l) (merge_sort_aux R st' l').
Proof.
  intros Hst Hl. revert st st' Hst.
  induction Hl as [|x x' l l' Hx Hl IH]; intros st st' Hst; simpl.
  - by apply merge_stack_related.
  - apply IH. apply merge_list_to_stack_related; [done|]. by repeat constructor.
Qed.

Lemma merge_sort_related (l l' : list A) :
  Forall2 Rel l l' → Forall2 Rel (merge_sort R l) (merge_sort R l').
Proof. intros Hl. apply merge_sort_aux_related; [constructor|done]. Qed.
End sort_related.

(** ** The loader reads the matching files of the classes, and nothing else *)

Lemma same_for_loader_le (p q p' q' : path) :
  same_for_loader p p' → same_for_loader q q' → path_le p q ↔ path_le p' q'.
Proof. intros [Hp _] [Hq _]. unfold path_le. by rewrite Hp, Hq. Qed.

Lemma same_for_loader_glob (p q : path) (label : nat) :
  same_for_loader p q → condition_mapping !! p.1 = Some label →
  glob_csv p.2 = glob_csv q.2.
Proof.
  intros [_ Hnode] Hlabel. destruct (p.2), (q.2); try done.
  destruct Hnode as [Hnone|Hglob]; [congruence|done].
Qed.

Lemma load_conditions_same_for_loader (ds ds' : list path) out acc :
  Forall2 same_for_loader ds ds' →
  load_conditions ds out acc = load_conditions ds' out acc.
Proof.
  intros Hall. revert out acc.
  induction Hall as [|d d' ds ds' Hd _ IH]; intros out acc; [done|].
  cbn [load_conditions].
  pose proof Hd as [Hname _]. rewrite <- Hname.
  destruct (condition_mapping !! d.1) as [label|] eqn:Hlabel; [|apply IH].
  rewrite <- (same_for_loader_glob d d' label Hd Hlabel).
  destruct (for_each _ _ _); [apply IH|done].
Qed.

Lemma same_for_loader_is_dir (p q : path) :
  same_for_loader p q → is_dir p.2 = is_dir q.2.
Proof. intros [_ Hnode]. by destruct (p.2), (q.2). Qed.

(** X6. The loader looks at nothing but the [*.csv] entries of the
    subdirectories that name a class.  Two roots with the same entry
    names in the same order, that differ in the content of the files of
    the root, in the content of subdirectories naming no class, or in the
    entries of another suffix inside a class, give the same printed lines
    and the same result. *)
Theorem loader_reads_class_csv_only fs fs' directory entries entries' :
  fs directory = Some (Dir entries) →
  fs' directory = Some (Dir entries') →
  Forall2 same_for_loader entries entries' →
  load_csv_data_with_features fs directory
  = load_csv_data_with_features fs' directory.
Proof.
  intros Hroot Hroot' Hall. unfold load_csv_data_with_features.
  rewrite Hroot, Hroot'. cbn [iterdir].
  generalize (merge_sort String.le (elements (dom condition_mapping))).
  intros condition_names.
  assert (Hdirs : Forall2 same_for_loader
            (filter (λ d : path, Is_true (is_dir d.2)) entries)
            (filter (λ d : path, Is_true (is_dir d.2)) entries')).
  { apply Forall2_filter; [|done].
    intros p q Hpq. by rewrite (same_for_loader_is_dir p q Hpq). }
  assert (Hsorted : Forall2 same_for_loader
            (sorted_paths (filter (λ d : path, Is_true (is_dir d.2)) entries))
            (sorted_paths (filter (λ d : path, Is_true (is_dir d.2)) entries'))).
  { apply (merge_sort_related path_le same_for_loader); [|done].
    intros x y x' y'. apply same_for_loader_le. }
  rewrite (load_conditions_same_for_loader _ _ _ _ Hsorted).
  by destruct Hdirs.
Qed.

Lemma scenario_same_for_loader :
  Forall2 same_for_loader
    [("normal", Dir [("s2.csv", File (Ok [xyz 1; xyz 2]%float));
                     ("s1.csv", File (Ok [xyz 3]%float));
                     ("notes.txt", File (Raise (OSError "not a table")))]);
     ("misalignment", Dir []);
     ("bearing", Dir [("s1.csv", File (Ok [xyz 4]%float))]);
     ("unknown_condition", Dir [("s1.csv", File (Ok [xyz 5]%float))]);
     ("README.md", File (Raise (OSError "not a table")))]
    [("normal", Dir [("s2.csv", File (Ok [xyz 1; xyz 2]%float));
                     ("s1.csv", File (Ok [xyz 3]%float))]);
     ("misalignment", Dir [("plot.png", File (Raise (OSError "no table")))]);
     ("bearing", Dir [("s1.csv", File (Ok [xyz 4]%float))]);
     ("unknown_condition", Dir []);
     ("README.md", File (Ok []))].
Proof.
  repeat constructor; cbn [fst snd]; first [by right; vm_compute | by left; vm_compute].
Qed.

Lemma loader_reads_class_csv_only_witness :
  load_csv_data_with_features scenario_fs "train"
  = load_csv_data_with_features scenario_fs_other "train".
Proof.
  exact (loader_reads_class_csv_only scenario_fs scenario_fs_other "train" _ _
           eq_refl eq_refl scenario_same_for_loader).
Defined.

(** ** Signal statistics *)

Lemma column_one_axis {F : Type} `{Scalar F} (signal : list F) :
  column (one_axis signal) 0 = signal.
Proof.
  unfold column, one_axis. cbn [rows]. rewrite <- list_fmap_compose.
  induction signal as [|v signal IH]; csimpl; by f_equal.
Qed.

(** X7. The statistics of the visualizer are the first five training
    features.  For a signal with at least one sample,
    [calculate_statistics] returns a dictionary with exactly the keys mean,
    std, min, max and rms, whose values are the first five features the
    extractor computes for the signal as a window of one axis; the sixth
    feature is max - min.  For the empty signal both raise the
    [ValueError] of [np.min]. *)
Theorem statistics_are_features {F : Type} `{Scalar F} (signal : list F) :
  (signal = [] →
   calculate_statistics signal = Raise (ValueError
     "zero-size array to reduction operation minimum which has no identity")
   ∧ extract_features_from_sequence (one_axis signal)
     = Raise (ValueError
     "zero-size array to reduction operation minimum which has no identity"))
  ∧ (signal ≠ [] →
     ∃ stats mean std mn mx rms,
       calculate_statistics signal = Ok stats
       ∧ dom stats = {["mean"; "std"; "min"; "max"; "rms"]}
       ∧ stats !! "mean" = Some mean ∧ stats !! "std" = Some std
       ∧ stats !! "min" = Some mn ∧ stats !! "max" = Some mx
       ∧ stats !! "rms" = Some rms
       ∧ extract_features_from_sequence (one_axis signal)
         = Ok [mean; std; mn; mx; rms; f_sub mx mn]).
Proof.
  split.
  - by intros ->.
  - intros Hne. unfold calculate_statistics.
    rewrite (np_min_stat signal Hne), (np_max_stat signal Hne).
    cbn [mbind result_bind].
    eexists _, (np_mean signal), (np_std 0 signal), (stat_min signal),
      (stat_max signal), (f_sqrt (np_mean (np_square signal))).
    split; [reflexivity|]. split.
    { rewrite !dom_insert_L, dom_empty_L. set_solver. }
    split; [by repeat (rewrite lookup_insert_ne by done); rewrite lookup_insert|].
    split; [by repeat (rewrite lookup_insert_ne by done); rewrite lookup_insert|].
    split; [by repeat (rewrite lookup_insert_ne by done); rewrite lookup_insert|].
    split; [by repeat (rewrite lookup_insert_ne by done); rewrite lookup_insert|].
    split; [by repeat (rewrite lookup_insert_ne by done); rewrite lookup_insert|].
    rewrite extract_features_ok.
    + unfold feature_vector.
      change (shape1 (one_axis signal)) with 1. cbn [seq map concat].
      rewrite column_one_axis, app_nil_r. unfold six_statistics.
      by rewrite np_std_stat.
    + cbn [one_axis rows]. by destruct signal.
Qed.

Lemma statistics_are_features_witness :
  (calculate_statistics ([] : list float) = Raise (ValueError
     "zero-size array to reduction operation minimum which has no identity")
   ∧ extract_features_from_sequence (one_axis ([] : list float))
     = Raise (ValueError
     "zero-size array to reduction operation minimum which has no identity"))
  ∧ ∃ stats mean std mn mx rms,
      calculate_statistics [1; 2; 3; 4]%float = Ok stats
      ∧ dom stats = {["mean"; "std"; "min"; "max"; "rms"]}
      ∧ stats !! "mean" = Some mean ∧ stats !! "std" = Some std
      ∧ stats !! "min" = Some mn ∧ stats !! "max" = Some mx
      ∧ stats !! "rms" = Some rms
      ∧ extract_features_from_sequence (one_axis [1; 2; 3; 4]%float)
        = Ok [mean; std; mn; mx; rms; f_sub mx mn].
Proof.
  split.
  - exact (proj1 (statistics_are_features ([] : list float)) eq_refl).
  - apply (proj2 (statistics_are_features [1; 2; 3; 4]%float)). discriminate.
Defined.

(** ** A NaN sample *)

Section nan.
Local Open Scope float_scope.

Lemma is_nan_sf (x : float) :
  PrimFloat.is_nan x = true ↔ Prim2SF x = S754_nan.
Proof.
  unfold PrimFloat.is_nan. rewrite FloatAxioms.eqb_spec. unfold SFeqb.
  destruct (Prim2SF x) as [s|s| |s m e] eqn:Hx; try done.
  all: by rewrite SFcompare_refl.
Qed.

Lemma add_nan (x y : float) :
  Prim2SF x = S754_nan ∨ Prim2SF y = S754_nan → Prim2SF (x + y) = S754_nan.
Proof.
  rewrite FloatAxioms.add_spec.
  intros [->| ->]; [done|]. by destruct (Prim2SF x).
Qed.

Lemma sub_nan (x y : float) :
  Prim2SF x = S754_nan ∨ Prim2SF y = S754_nan → Prim2SF (x - y) = S754_nan.
Proof.
  rewrite FloatAxioms.sub_spec.
  intros [->| ->]; [done|]. by destruct (Prim2SF x).
Qed.

Lemma mul_nan (x y : float) :
  Prim2SF x = S754_nan ∨ Prim2SF y = S754_nan → Prim2SF (x * y) = S754_nan.
Proof.
  rewrite FloatAxioms.mul_spec.
  intros [->| ->]; [done|]. by destruct (Prim2SF x).
Qed.

Lemma div_nan (x y : float) :
  Prim2SF x = S754_nan → Prim2SF (x / y) = S754_nan.
Proof. rewrite FloatAxioms.div_spec. by intros ->. Qed.

Lemma sqrt_nan (x : float) :
  Prim2SF x = S754_nan → Prim2SF (PrimFloat.sqrt x) = S754_nan.
Proof. rewrite FloatAxioms.sqrt_spec. by intros ->. Qed.

Lemma sum_nan_acc (xs : list float) (acc : float) :
  Prim2SF acc = S754_nan → Prim2SF (foldl PrimFloat.add acc xs) = S754_nan.
Proof.
  revert acc. induction xs as [|x xs IH]; intros acc Hacc; [done|].
  apply IH, add_nan. by left.
Qed.

Lemma sum_nan (xs : list float) (acc : float) :
  Exists (λ v, Prim2SF v = S754_nan) xs →
  Prim2SF (foldl PrimFloat.add acc xs) = S754_nan.
Proof.
  intros Hxs. revert acc.
  induction Hxs as [x xs Hx|x xs _ IH]; intros acc; cbn [foldl].
  - apply sum_nan_acc, add_nan. by right.
  - apply IH.
Qed.

Lemma minimum_nan_acc (xs : list float) (acc : float) :
  Prim2SF acc = S754_nan → Prim2SF (foldl np_minimum acc xs) = S754_nan.
Proof.
  revert acc. induction xs as [|x xs IH]; intros acc Hacc; [done|].
  cbn [foldl]. apply IH. unfold np_minimum. cbn [f_leb f_isnan float_scalar].
  apply is_nan_sf in Hacc as Hnan. by rewrite Hnan, orb_true_r.
Qed.

Lemma maximum_nan_acc (xs : list float) (acc : float) :
  Prim2SF acc = S754_nan → Prim2SF (foldl np_maximum acc xs) = S754_nan.
Proof.
  revert acc. induction xs as [|x xs IH]; intros acc Hacc; [done|].
  cbn [foldl]. apply IH. unfold np_maximum. cbn [f_leb f_isnan float_scalar].
  apply is_nan_sf in Hacc as Hnan. by rewrite Hnan, orb_true_r.
Qed.

Lemma leb_nan_r (x y : float) : Prim2SF y = S754_nan → (x <=? y) = false.
Proof.
  intros Hy. rewrite FloatAxioms.leb_spec, Hy. unfold SFleb.
  by destruct (Prim2SF x).
Qed.

Lemma leb_nan_l (x y : float) : Prim2SF x = S754_nan → (x <=? y) = false.
Proof. intros Hx. by rewrite FloatAxioms.leb_spec, Hx. Qed.

Lemma minimum_nan (xs : list float) (acc : float) :
  Exists (λ v, Prim2SF v = S754_nan) (acc :: xs) →
  Prim2SF (foldl np_minimum acc xs) = S754_nan.
Proof.
  revert acc. induction xs as [|x xs IH]; intros acc Hex.
  - apply Exists_cons in Hex as [Hacc|Hex]; [done|by apply Exists_nil in Hex].
  - apply Exists_cons in Hex as [Hacc|Hex]; [by apply minimum_nan_acc|].
    cbn [foldl]. apply IH.
    apply Exists_cons in Hex as [Hx|Hex]; [|by right].
    left. unfold np_minimum. cbn [f_leb f_isnan float_scalar].
    destruct (PrimFloat.is_nan acc) eqn:Hacc.
    + rewrite orb_true_r. by apply is_nan_sf.
    + by rewrite (leb_nan_r acc x Hx).
Qed.

Lemma maximum_nan (xs : list float) (acc : float) :
  Exists (λ v, Prim2SF v = S754_nan) (acc :: xs) →
  Prim2SF (foldl np_maximum acc xs) = S754_nan.
Proof.
  revert acc. induction xs as [|x xs IH]; intros acc Hex.
  - apply Exists_cons in Hex as [Hacc|Hex]; [done|by apply Exists_nil in Hex].
  - apply Exists_cons in Hex as [Hacc|Hex]; [by apply maximum_nan_acc|].
    cbn [foldl]. apply IH.
    apply Exists_cons in Hex as [Hx|Hex]; [|by right].
    left. unfold np_maximum. cbn [f_leb f_isnan float_scalar].
    destruct (PrimFloat.is_nan acc) eqn:Hacc.
    + rewrite orb_true_r. by apply is_nan_sf.
    + by rewrite (leb_nan_l x acc Hx).
Qed.

(** The six statistics of samples with a NaN among them. *)
Lemma six_statistics_nan (xs : list float) :
  Exists (λ v, Prim2SF v = S754_nan) xs →
  Forall (λ v, Prim2SF v = S754_nan) (six_statistics xs).
Proof.
  intros Hex.
  assert (Hmean : Prim2SF (stat_mean xs) = S754_nan).
  { unfold stat_mean, np_sum. cbn [f_div f_add f_zero float_scalar].
    by apply div_nan, sum_nan. }
  assert (Hmin : Prim2SF (stat_min xs) = S754_nan).
  { unfold stat_min. destruct xs as [|x xs]; [by apply Exists_nil in Hex|].
    by apply minimum_nan. }
  assert (Hmax : Prim2SF (stat_max xs) = S754_nan).
  { unfold stat_max. destruct xs as [|x xs]; [by apply Exists_nil in Hex|].
    by apply maximum_nan. }
  assert (Hstd : Prim2SF (stat_std xs) = S754_nan).
  { unfold stat_std, np_sum. cbn [f_sqrt f_div f_sub f_mul f_add float_scalar].
    apply sqrt_nan, div_nan, sum_nan.
    apply Exists_fmap. eapply Exists_impl; [exact Hex|].
    intros v _. cbn beta. apply mul_nan. left. apply sub_nan. by right. }
  assert (Hrms : Prim2SF (stat_rms xs) = S754_nan).
  { unfold stat_rms, stat_mean, np_sum.
    cbn [f_sqrt f_div f_mul f_add float_scalar].
    apply sqrt_nan, div_nan, sum_nan.
    apply Exists_fmap. eapply Exists_impl; [exact Hex|].
    intros v Hv. cbn beta. apply mul_nan. by left. }
  assert (Hptp : Prim2SF (stat_ptp xs) = S754_nan).
  { unfold stat_ptp. cbn [f_sub float_scalar]. apply sub_nan. by left. }
  unfold six_statistics. by repeat constructor.
Qed.
End nan.

(** X8. A NaN among the samples of an axis raises nothing: the extractor
    returns, and all six features of that axis are NaN. *)
Theorem nan_poisons_its_axis (window : ndarray float) (j : nat) :
  rows window ≠ [] → j < shape1 window →
  Exists (λ v, PrimFloat.is_nan v = true) (column window j) →
  ∃ features,
    extract_features_from_sequence window = Ok features
    ∧ length features = 6 * shape1 window
    ∧ length (axis_fields features j) = 6
    ∧ Forall (λ v, PrimFloat.is_nan v = true) (axis_fields features j).
Proof.
  intros Hrows Hj Hnan. exists (feature_vector window).
  split; [by apply extract_features_ok|].
  split; [apply feature_vector_length|].
  rewrite (feature_vector_axis window j Hj). split; [done|].
  eapply Forall_impl.
  - apply six_statistics_nan. eapply Exists_impl; [exact Hnan|].
    intros v Hv. by apply is_nan_sf.
  - intros v Hv. by apply is_nan_sf.
Qed.

Lemma nan_poisons_its_axis_witness :
  ∃ features,
    extract_features_from_sequence window_nan = Ok features
    ∧ length features = 6 * shape1 window_nan
    ∧ length (axis_fields features 1) = 6
    ∧ Forall (λ v, PrimFloat.is_nan v = true) (axis_fields features 1).
Proof.
  apply (nan_poisons_its_axis window_nan 1).
  - discriminate.
  - simpl. lia.
  - apply Exists_cons_hd. reflexivity.
Defined.

(** ** The order of binary64 *)

Section order.
Local Open Scope float_scope.

Lemma SFleb_key (x y : spec_float) :
  SFleb x y = true ↔
  x ≠ S754_nan ∧ y ≠ S754_nan ∧ key_le (sf_key x) (sf_key y).
Proof.
  unfold SFleb, key_le.
  destruct x as [sx|[]| |[] mx ex], y as [sy|[]| |[] my ey];
    cbn [SFcompare sf_key fst snd];
    try (split; [intros ?; repeat split; try done; lia
                |intros (? & ? & ?); first [done | lia]]).
  - destruct (Z.compare_spec ex ey) as [Heq|Hlt|Hgt].
    + change (Pos.compare_cont Eq mx my) with (Pos.compare mx my).
      destruct (Pos.compare_spec mx my) as [Hm|Hm|Hm]; cbn [CompOpp];
        (split; [intros ?; repeat split; try done; lia
                |intros (? & ? & ?); first [done | lia]]).
    + split; [done|]. intros (? & ? & ?). lia.
    + split; [intros ?; repeat split; try done; lia|done].
  - destruct (Z.compare_spec ex ey) as [Heq|Hlt|Hgt].
    + change (Pos.compare_cont Eq mx my) with (Pos.compare mx my).
      destruct (Pos.compare_spec mx my) as [Hm|Hm|Hm];
        (split; [intros ?; repeat split; try done; lia
                |intros (? & ? & ?); first [done | lia]]).
    + split; [intros ?; repeat split; try done; lia|done].
    + split; [done|]. intros (? & ? & ?). lia.
Qed.

Lemma key_le_refl k : key_le k k.
Proof. unfold key_le. lia. Qed.

Lemma key_le_total k k' : key_le k k' ∨ key_le k' k.
Proof. unfold key_le. lia. Qed.

Lemma key_le_trans k1 k2 k3 : key_le k1 k2 → key_le k2 k3 → key_le k1 k3.
Proof. unfold key_le. lia. Qed.

Lemma leb_key (x y : float) :
  (x <=? y) = true ↔
  PrimFloat.is_nan x = false ∧ PrimFloat.is_nan y = false
  ∧ key_le (sf_key (Prim2SF x)) (sf_key (Prim2SF y)).
Proof.
  rewrite FloatAxioms.leb_spec, SFleb_key.
  assert (Hnan : ∀ z, Prim2SF z ≠ S754_nan ↔ PrimFloat.is_nan z = false).
  { intros z. rewrite <- is_nan_sf. by destruct (PrimFloat.is_nan z). }
  by rewrite !Hnan.
Qed.
End order.

Section extremes.
Local Open Scope float_scope.

Lemma leb_refl (x : float) : PrimFloat.is_nan x = false → (x <=? x) = true.
Proof. intros Hx. apply leb_key. auto using key_le_refl. Qed.

Lemma leb_total (x y : float) :
  PrimFloat.is_nan x = false → PrimFloat.is_nan y = false →
  (x <=? y) = false → (y <=? x) = true.
Proof.
  intros Hx Hy Hxy. apply leb_key. split; [done|]. split; [done|].
  destruct (key_le_total (sf_key (Prim2SF x)) (sf_key (Prim2SF y)))
    as [Hle|Hle]; [|done].
  assert ((x <=? y) = true) by (by apply leb_key). congruence.
Qed.

Lemma leb_trans (x y z : float) :
  (x <=? y) = true → (y <=? z) = true → (x <=? z) = true.
Proof.
  rewrite !leb_key. intros (Hx & _ & Hxy) (_ & Hz & Hyz).
  eauto using key_le_trans.
Qed.

Lemma foldl_minimum_least (acc : float) (xs : list float) :
  PrimFloat.is_nan acc = false →
  Forall (λ v, PrimFloat.is_nan v = false) xs →
  foldl np_minimum acc xs ∈ acc :: xs
  ∧ Forall (λ v, (foldl np_minimum acc xs <=? v) = true) (acc :: xs).
Proof.
  intros Hacc Hxs. revert acc Hacc.
  induction Hxs as [|x xs Hx _ IH]; intros acc Hacc; cbn [foldl].
  - split; [by apply list_elem_of_singleton|].
    repeat constructor. by apply leb_refl.
  - assert (Hmin : np_minimum acc x = (if acc <=? x then acc else x)).
    { unfold np_minimum. cbn [f_leb f_isnan float_scalar].
      by rewrite Hacc, orb_false_r. }
    assert (Hnan : PrimFloat.is_nan (np_minimum acc x) = false).
    { rewrite Hmin. by destruct (acc <=? x). }
    destruct (IH _ Hnan) as [Hin Hle].
    apply Forall_cons in Hle as [Hm Hle].
    assert (Hma : (np_minimum acc x <=? acc) = true).
    { rewrite Hmin. destruct (acc <=? x) eqn:Hax; [by apply leb_refl|].
      by apply leb_total. }
    assert (Hmx : (np_minimum acc x <=? x) = true).
    { rewrite Hmin. destruct (acc <=? x) eqn:Hax; [done|by apply leb_refl]. }
    split.
    + apply elem_of_cons in Hin as [Hin|Hin].
      * rewrite Hin, Hmin. rewrite !elem_of_cons. destruct (acc <=? x); auto.
      * rewrite !elem_of_cons. auto.
    + repeat apply Forall_cons_2; eauto using leb_trans.
Qed.

Lemma foldl_maximum_greatest (acc : float) (xs : list float) :
  PrimFloat.is_nan acc = false →
  Forall (λ v, PrimFloat.is_nan v = false) xs →
  foldl np_maximum acc xs ∈ acc :: xs
  ∧ Forall (λ v, (v <=? foldl np_maximum acc xs) = true) (acc :: xs).
Proof.
  intros Hacc Hxs. revert acc Hacc.
  induction Hxs as [|x xs Hx _ IH]; intros acc Hacc; cbn [foldl].
  - split; [by apply list_elem_of_singleton|].
    repeat constructor. by apply leb_refl.
  - assert (Hmax : np_maximum acc x = (if x <=? acc then acc else x)).
    { unfold np_maximum. cbn [f_leb f_isnan float_scalar].
      by rewrite Hacc, orb_false_r. }
    assert (Hnan : PrimFloat.is_nan (np_maximum acc x) = false).
    { rewrite Hmax. by destruct (x <=? acc). }
    destruct (IH _ Hnan) as [Hin Hle].
    apply Forall_cons in Hle as [Hm Hle].
    assert (Hma : (acc <=? np_maximum acc x) = true).
    { rewrite Hmax. destruct (x <=? acc) eqn:Hax; [by apply leb_refl|].
      by apply leb_total. }
    assert (Hmx : (x <=? np_maximum acc x) = true).
    { rewrite Hmax. destruct (x <=? acc) eqn:Hax; [done|by apply leb_refl]. }
    split.
    + apply elem_of_cons in Hin as [Hin|Hin].
      * rewrite Hin, Hmax. rewrite !elem_of_cons. destruct (x <=? acc); auto.
      * rewrite !elem_of_cons. auto.
    + repeat apply Forall_cons_2; eauto using leb_trans.
Qed.
End extremes.

(** X9. On an axis without NaN the min and max features are exact in
    binary64: each is one of the samples of the axis, and every sample
    lies between them. *)
Theorem min_max_are_samples (window : ndarray float) (j : nat) :
  rows window ≠ [] → j < shape1 window →
  Forall (λ v, PrimFloat.is_nan v = false) (column window j) →
  ∃ features mn mx,
    extract_features_from_sequence window = Ok features
    ∧ axis_fields features j !! 2 = Some mn
    ∧ axis_fields features j !! 3 = Some mx
    ∧ mn ∈ column window j ∧ mx ∈ column window j
    ∧ Forall (λ v, (mn <=? v)%float = true ∧ (v <=? mx)%float = true)
        (column window j).
Proof.
  intros Hrows Hj Hnan.
  exists (feature_vector window), (stat_min (column window j)),
    (stat_max (column window j)).
  split; [by apply extract_features_ok|].
  rewrite (feature_vector_axis window j Hj).
  split; [done|]. split; [done|].
  pose proof (column_nonempty window j Hrows) as Hne.
  destruct (column window j) as [|x xs]; [done|].
  apply Forall_cons in Hnan as [Hx Hxs]. unfold stat_min, stat_max.
  cbn [hd tl].
  destruct (foldl_minimum_least x xs Hx Hxs) as [Hmin Hleast].
  destruct (foldl_maximum_greatest x xs Hx Hxs) as [Hmax Hgreatest].
  split; [done|]. split; [done|].
  apply Forall_forall. intros v Hv. split.
  - by apply (proj1 (Forall_forall _ _) Hleast).
  - by apply (proj1 (Forall_forall _ _) Hgreatest).
Qed.

Lemma min_max_are_samples_witness :
  ∃ features mn mx,
    extract_features_from_sequence window_1234 = Ok features
    ∧ axis_fields features 0 !! 2 = Some mn
    ∧ axis_fields features 0 !! 3 = Some mx
    ∧ mn ∈ column window_1234 0 ∧ mx ∈ column window_1234 0
    ∧ Forall (λ v, (mn <=? v)%float = true ∧ (v <=? mx)%float = true)
        (column window_1234 0).
Proof.
  apply (min_max_are_samples window_1234 0).
  - discriminate.
  - simpl. lia.
  - repeat constructor.
Defined.

(** ** Signal-to-noise ratio *)

Section no_noise_power.
Local Open Scope float_scope.

Lemma SFmul_zero_or_nan x : sf_zero_or_nan x → sf_zero_or_nan (SF64mul x x).
Proof. by destruct x. Qed.

Lemma SFadd_zero_or_nan x y :
  sf_zero_or_nan x → sf_zero_or_nan y → sf_zero_or_nan (SF64add x y).
Proof. destruct x as [[]|[]| |], y as [[]|[]| |]; by simpl. Qed.

Lemma SFdiv_zero_or_nan x y : sf_zero_or_nan x → sf_zero_or_nan (SF64div x y).
Proof. destruct x as [[]|[]| |], y as [[]|[]| |[]]; by simpl. Qed.

Lemma SFltb_zero_or_nan x :
  sf_zero_or_nan x → SFltb (S754_zero false) x = false.
Proof. by destruct x. Qed.

Lemma sum_zero_or_nan (xs : list float) (acc : float) :
  sf_zero_or_nan (Prim2SF acc) →
  Forall (λ v, sf_zero_or_nan (Prim2SF v)) xs →
  sf_zero_or_nan (Prim2SF (foldl PrimFloat.add acc xs)).
Proof.
  intros Hacc Hxs. revert acc Hacc.
  induction Hxs as [|x xs Hx _ IH]; intros acc Hacc; [done|].
  cbn [foldl]. apply IH. rewrite FloatAxioms.add_spec.
  by apply SFadd_zero_or_nan.
Qed.

(** Samples that are zeros or NaN carry no positive power. *)
Lemma power_zero_or_nan (xs : list float) :
  Forall (λ v, sf_zero_or_nan (Prim2SF v)) xs →
  (0 <? np_mean (np_square xs)) = false.
Proof.
  intros Hxs. rewrite FloatAxioms.ltb_spec, Prim2SF_zero.
  apply SFltb_zero_or_nan. unfold np_mean, np_sum, np_square.
  cbn [f_div f_add f_zero f_mul float_scalar].
  rewrite FloatAxioms.div_spec. apply SFdiv_zero_or_nan, sum_zero_or_nan.
  - by rewrite Prim2SF_zero.
  - apply Forall_fmap. eapply Forall_impl; [exact Hxs|].
    intros v Hv. unfold compose. rewrite FloatAxioms.mul_spec.
    by apply SFmul_zero_or_nan.
Qed.

Lemma power_nan (xs : list float) :
  Exists (λ v, Prim2SF v = S754_nan) xs →
  (0 <? np_mean (np_square xs)) = false.
Proof.
  intros Hxs. rewrite FloatAxioms.ltb_spec, Prim2SF_zero.
  apply SFltb_zero_or_nan. unfold np_mean, np_sum, np_square.
  cbn [f_div f_add f_zero f_mul float_scalar].
  rewrite div_nan; [done|]. apply sum_nan, Exists_fmap.
  eapply Exists_impl; [exact Hxs|]. intros v Hv. cbn beta.
  apply mul_nan. by left.
Qed.

Lemma eqb_zero_sf (v : float) :
  (v =? 0) = true → ∃ s, Prim2SF v = S754_zero s.
Proof.
  rewrite FloatAxioms.eqb_spec, Prim2SF_zero. unfold SFeqb.
  destruct (Prim2SF v) as [s|[]| |[] m e]; try done. by exists s.
Qed.

(** What adding a zero to a sample changes in it: nothing, or the sample
    was no number. *)
Lemma SFsub_add_zero x :
  sf_zero_or_nan (SF64sub (SF64add x (S754_zero false)) x).
Proof.
  destruct x as [[]|[]| |s m e]; try done.
  unfold SF64add, SF64sub. cbn [SFadd SFsub]. by rewrite Z.sub_diag.
Qed.
End no_noise_power.

Lemma unchanged_signal_noise (xs : list float) :
  Forall (λ v, sf_zero_or_nan (Prim2SF v))
    (zip_with PrimFloat.sub
       (zip_with PrimFloat.add xs (replicate (length xs) 0%float)) xs).
Proof.
  induction xs as [|x xs IH]; [constructor|].
  cbn [length replicate zip_with]. constructor; [|done].
  rewrite FloatAxioms.sub_spec, FloatAxioms.add_spec, Prim2SF_zero.
  apply SFsub_add_zero.
Qed.

(** X10. [calculate_snr] returns plus infinity, not NaN and not an
    error, whenever the noise has no positive power: when a noise sample
    is NaN, when all noise samples are zeros, and when the noise is
    empty. *)
Theorem snr_without_noise_power (np_log10 : float → float)
    (signal noise : list float) :
  Exists (λ v, PrimFloat.is_nan v = true) noise
  ∨ Forall (λ v, (v =? 0)%float = true) noise →
  calculate_snr np_log10 signal noise = infinity.
Proof.
  intros Hnoise. unfold calculate_snr.
  assert (Hpower : (0 <? np_mean (np_square noise))%float = false);
    [|by rewrite Hpower].
  destruct Hnoise as [Hnan|Hzero].
  - apply power_nan. eapply Exists_impl; [exact Hnan|].
    intros v Hv. by apply is_nan_sf.
  - apply power_zero_or_nan. eapply Forall_impl; [exact Hzero|].
    intros v Hv. destruct (eqb_zero_sf v Hv) as [s ->]. done.
Qed.

Lemma snr_without_noise_power_witness :
  calculate_snr linear_log10 [1; 2]%float [0; -0]%float = infinity.
Proof.
  apply (snr_without_noise_power linear_log10). right. repeat constructor.
Defined.

(** X11. With the noise level 0 the visualizer reports an infinite
    signal-to-noise ratio, for every clean signal and from every state of
    the generator: the noise it measures, the noisy signal minus the
    clean one, holds only zeros and NaN. *)
Theorem snr_noisy_without_noise {rng : Type}
    (init_genrand : Z → rng) (legacy_gauss : rng → float * rng)
    (np_log10 : float → float) :
  (∀ g, PrimFloat.is_finite (legacy_gauss g).1 = true) →
  ∀ (clean_signal : list float) (g : rng),
    (snr_noisy init_genrand legacy_gauss np_log10 clean_signal 0 g).1
    = Ok infinity.
Proof.
  intros Hfinite clean_signal g.
  unfold snr_noisy, mbind, np_random_bind.
  rewrite add_noise_run. rewrite bool_decide_eq_true_2 by lia.
  rewrite (scale_check_passes 0%float) by (by right).
  cbn zeta. cbn [mret np_random_ret fst]. f_equal.
  unfold calculate_snr.
  assert (Hpower :
    PrimFloat.ltb 0%float (np_mean (np_square
       (np_subtract
          (np_add clean_signal
             (map (λ z, f_add f_zero (f_mul 0%float z))
                (gauss_fill legacy_gauss (length clean_signal)
                   (init_genrand 42%Z)).1))
          clean_signal))) = false); [|by rewrite Hpower].
  apply power_zero_or_nan.
  cbn [f_add f_zero f_mul float_scalar].
  rewrite zero_noise_vector by (by apply gauss_fill_Forall).
  rewrite gauss_fill_length. apply unchanged_signal_noise.
Qed.

Lemma snr_noisy_without_noise_witness :
  (snr_noisy counter_init counter_gauss linear_log10 [1; 2; 3]%float 0 7%Z).1
  = Ok infinity.
Proof.
  apply (snr_noisy_without_noise counter_init counter_gauss linear_log10).
  intros g. unfold counter_gauss. simpl. destruct (Z.even g); reflexivity.
Defined.

(** ** The moving-average filter *)

Section filter_shape.
Context {F : Type} `{Scalar F}.

Lemma np_convolve_full_length (a v : list F) :
  length (np_convolve_full a v) = length a + length v - 1.
Proof. unfold np_convolve_full. by rewrite length_map, length_seq. Qed.

End filter_shape.



Section filter_values.
Local Open Scope R_scope.

Lemma np_sum_R_scale (c : R) (xs : list R) :
  np_sum (map (λ x, x * c) xs) = np_sum xs * c.
Proof.
  induction xs as [|x xs IH].
  - unfold np_sum. cbn. lra.
  - cbn [map]. rewrite !np_sum_R_cons, IH. lra.
Qed.

Lemma nth_seq_slice {A} (d : A) (xs : list A) (first count : nat) :
  (first + count ≤ length xs)%nat →
  map (λ m, nth m xs d) (seq first count) = take count (drop first xs).
Proof.
  revert first. induction count as [|count IH]; intros first Hlen.
  - by rewrite take_0.
  - cbn [seq map]. rewrite IH by lia.
    destruct (lookup_lt_is_Some_2 xs first) as [x Hx]; [lia|].
    rewrite (drop_S _ _ _ Hx). cbn [take]. f_equal.
    by apply nth_lookup_Some.
Qed.

Lemma np_convolve_full_lookup (a v : list R) (k : nat) :
  (k < length a + length v - 1)%nat →
  np_convolve_full a v !! k
  = Some (np_sum (map (λ m, nth m a 0 * nth (k - m) v 0)
                    (seq (k + 1 - length v)
                         (min (k + 1) (length a) - (k + 1 - length v))))).
Proof.
  intros Hk. unfold np_convolve_full.
  rewrite list_lookup_fmap, lookup_seq_lt by done. done.
Qed.
End filter_values.

(** X13. In exact arithmetic the filter is the moving average.  For a
    window of [w] samples no longer than the signal, the filtered sample
    [k] is the sum of the samples [k - w/2 .. k + (w-1)/2] that exist,
    divided by [w]: the mean of the [w] samples around [k] in the
    interior, and less than that at both ends, where the missing samples
    count as zeros. *)
Theorem apply_filter_moving_average (signal : list R) (w k : nat) :
  1 ≤ w ≤ length signal → k < length signal →
  ∃ filtered,
    apply_filter signal (Z.of_nat w) = Ok filtered
    ∧ length filtered = length signal
    ∧ filtered !! k
      = Some (np_sum (take (min (k + (w - 1) / 2 + 1) (length signal)
                            - (k - w / 2))
                        (drop (k - w / 2) signal)) / INR w)%R.
Proof.
  intros Hw Hk. unfold apply_filter, np_ones.
  rewrite (proj2 (Z.ltb_ge _ _)) by lia. rewrite Nat2Z.id.
  cbn [mbind result_bind]. rewrite fmap_replicate.
  set (c := f_div (f_of_nat 1) (f_of_nat w)).
  unfold np_convolve_same. rewrite length_replicate.
  rewrite (proj2 (Nat.ltb_ge _ _)) by lia. cbn beta iota zeta.
  rewrite !length_replicate.
  rewrite (proj2 (Nat.eqb_neq (length signal) 0)) by lia.
  rewrite (proj2 (Nat.eqb_neq w 0)) by lia.
  eexists. split; [reflexivity|].
  assert (Hoff : ((w - 1) / 2 ≤ w - 1)%nat).
  { apply Nat.Div0.div_le_upper_bound. lia. }
  assert (Hhalf : (w - 1 - (w - 1) / 2 = w / 2)%nat).
  { pose proof (Nat.div_mod_eq (w - 1) 2) as H1.
    pose proof (Nat.div_mod_eq w 2) as H2.
    pose proof (Nat.mod_upper_bound (w - 1) 2) as H3.
    pose proof (Nat.mod_upper_bound w 2) as H4. lia. }
  split.
  { rewrite length_take, length_drop, np_convolve_full_length,
      length_replicate. lia. }
  rewrite lookup_take_lt, lookup_drop by done.
  rewrite np_convolve_full_lookup by (rewrite length_replicate; lia).
  rewrite length_replicate. f_equal.
  replace ((w - 1) / 2 + k + 1 - w)%nat with (k - w / 2)%nat by lia.
  replace ((w - 1) / 2 + k + 1)%nat with (k + (w - 1) / 2 + 1)%nat by lia.
  set (first := (k - w / 2)%nat).
  set (count := (min (k + (w - 1) / 2 + 1) (length signal) - first)%nat).
  rewrite <- (nth_seq_slice 0%R) by (subst first count; lia).
  assert (Hterm : ∀ m, m ∈ seq first count →
            (nth m signal 0 * nth ((w - 1) / 2 + k - m) (replicate w c) 0
             = nth m signal 0 * c)%R).
  { intros m Hm%elem_of_seq. f_equal.
    apply nth_lookup_Some with (d := 0%R). apply lookup_replicate_2.
    subst first count. lia. }
  assert (Hmap :
    map (λ m, nth m signal 0 * nth ((w - 1) / 2 + k - m) (replicate w c) 0)%R
        (seq first count)
    = map (λ m, nth m signal 0 * c)%R (seq first count)).
  { apply list_fmap_ext. intros i m Hm. apply Hterm.
    by eapply list_elem_of_lookup_2. }
  rewrite Hmap.
  rewrite <- (map_map (λ m, nth m signal 0%R) (λ x, x * c)%R).
  rewrite np_sum_R_scale. subst c.
  cbn [f_div f_of_nat R_scalar INR]. unfold Rdiv. by rewrite Rmult_1_l.
Qed.

Lemma apply_filter_moving_average_witness :
  ∃ filtered,
    apply_filter [1; 2; 3; 4]%R (Z.of_nat 2) = Ok filtered
    ∧ length filtered = length [1; 2; 3; 4]%R
    ∧ filtered !! 1
      = Some (np_sum (take (min (1 + (2 - 1) / 2 + 1) (length [1; 2; 3; 4]%R)
                            - (1 - 2 / 2))
                        (drop (1 - 2 / 2) [1; 2; 3; 4]%R)) / INR 2)%R.
Proof.
  apply (apply_filter_moving_average [1; 2; 3; 4]%R 2 1).
  - simpl. lia.
  - simpl. lia.
Defined.

(** ** Choosing a port *)

Section port_facts.
Variable socket : nat → result unit.
Variable bind : Z → result unit.
Hypothesis sockets : ∀ i, socket i = Ok ().

Lemma try_ports_spec (start_port : Z) (first n : nat) (port : option Z) :
  try_ports socket bind start_port (seq first n) = Ok port ↔
  match port with
  | Some p =>
      (start_port + Z.of_nat first ≤ p < start_port + Z.of_nat (first + n))%Z
      ∧ bind p = Ok ()
      ∧ ∀ q, (start_port + Z.of_nat first ≤ q < p)%Z → taken bind q
  | None =>
      ∀ q, (start_port + Z.of_nat first ≤ q
            < start_port + Z.of_nat (first + n))%Z → taken bind q
  end.
Proof.
  revert first. induction n as [|n IH]; intros first.
  - cbn [seq try_ports]. split.
    + intros [= <-]. intros q Hq. lia.
    + destruct port as [p|]; [intros [Hp _]; lia|done].
  - cbn [seq try_ports]. rewrite sockets. cbn [mbind result_bind].
    destruct (bind (start_port + Z.of_nat first)) as [[]|e] eqn:Hbind.
    + split.
      * intros [= <-]. split; [lia|]. split; [done|]. intros q Hq. lia.
      * destruct port as [p|].
        -- intros (Hp & Hbound & Hleast).
           destruct (decide (p = start_port + Z.of_nat first)%Z) as [->|Hne];
             [done|].
           destruct (Hleast (start_port + Z.of_nat first)%Z) as [msg Hmsg];
             [lia|congruence].
        -- intros Hall.
           destruct (Hall (start_port + Z.of_nat first)%Z) as [msg Hmsg];
             [lia|congruence].
    + assert (Hstep : ∀ P : Z → Prop, P (start_port + Z.of_nat first)%Z →
                ∀ hi, (∀ q, (start_port + Z.of_nat (S first) ≤ q < hi)%Z → P q)
                → ∀ q, (start_port + Z.of_nat first ≤ q < hi)%Z → P q).
      { intros P H0 hi Hrest q Hq.
        destruct (decide (q = start_port + Z.of_nat first)%Z) as [->|Hne];
          [done|apply Hrest; lia]. }
      destruct e as [msg|msg|msg].
      1,2: split; [done|]; destruct port as [p|];
        [intros (Hp & Hbound & Hleast);
         destruct (decide (p = start_port + Z.of_nat first)%Z) as [->|Hne];
         [congruence|];
         destruct (Hleast (start_port + Z.of_nat first)%Z) as [msg' Hmsg];
         [lia|congruence]
        |intros Hall;
         destruct (Hall (start_port + Z.of_nat first)%Z) as [msg' Hmsg];
         [lia|congruence]].
      rewrite IH. replace (S first + n) with (first + S n) by lia.
      assert (Htaken : taken bind (start_port + Z.of_nat first)%Z).
      { by exists msg. }
      destruct port as [p|].
      * split.
        -- intros (Hp & Hbound & Hleast). split; [lia|]. split; [done|].
           by apply Hstep.
        -- intros (Hp & Hbound & Hleast).
           assert (p ≠ start_port + Z.of_nat first)%Z by congruence.
           split; [lia|]. split; [done|]. intros q Hq. apply Hleast. lia.
      * split.
        -- intros Hall. by apply Hstep.
        -- intros Hall q Hq. apply Hall. lia.
Qed.
End port_facts.

(** X14. [find_free_port] returns the least free port.  When the sockets
    can be created, it returns a port exactly when that port is the first
    of [start_port, ..., start_port + max_attempts - 1] to which a socket
    binds, every port before it being taken; and it returns [None]
    exactly when all of them are taken (so for [max_attempts <= 0]). *)
Theorem find_free_port_least (socket : nat → result unit)
    (bind : Z → result unit) (start_port max_attempts : Z) :
  (∀ i, socket i = Ok ()) →
  (∀ p, find_free_port socket bind start_port max_attempts = Ok (Some p) ↔
        (start_port ≤ p < start_port + Z.max 0 max_attempts)%Z
        ∧ bind p = Ok ()
        ∧ ∀ q, (start_port ≤ q < p)%Z → taken bind q)
  ∧ (find_free_port socket bind start_port max_attempts = Ok None ↔
     ∀ q, (start_port ≤ q < start_port + Z.max 0 max_attempts)%Z →
          taken bind q).
Proof.
  intros Hsockets. unfold find_free_port. split.
  - intros p. rewrite (try_ports_spec socket bind Hsockets).
    replace (start_port + Z.of_nat 0)%Z with start_port by lia.
    replace (Z.of_nat (0 + Z.to_nat max_attempts))
      with (Z.max 0 max_attempts) by lia.
    done.
  - rewrite (try_ports_spec socket bind Hsockets).
    replace (start_port + Z.of_nat 0)%Z with start_port by lia.
    replace (Z.of_nat (0 + Z.to_nat max_attempts))
      with (Z.max 0 max_attempts) by lia.
    done.
Qed.

Lemma find_free_port_least_witness :
  (∀ p, find_free_port any_socket busy_bind 3030 10 = Ok (Some p) ↔
        (3030 ≤ p < 3030 + Z.max 0 10)%Z
        ∧ busy_bind p = Ok ()
        ∧ ∀ q, (3030 ≤ q < p)%Z → taken busy_bind q)
  ∧ (find_free_port any_socket busy_bind 3030 10 = Ok None ↔
     ∀ q, (3030 ≤ q < 3030 + Z.max 0 10)%Z → taken busy_bind q).
Proof.
  exact (find_free_port_least any_socket busy_bind 3030 10 (λ i, eq_refl)).
Defined.

(** X15. The port the server is started on lies in 3030..3039.  It is the
    least free one; when all ten are taken, the script warns and starts on
    3030, a port it has just found taken. *)
Theorem startup_port_in_range (socket : nat → result unit)
    (bind : Z → result unit) (out : list string) (port : Z) :
  (∀ i, socket i = Ok ()) →
  startup_port socket bind = Ok (out, port) →
  (3030 ≤ port ≤ 3039)%Z
  ∧ ((out = [] ∧ bind port = Ok ()
      ∧ ∀ q, (3030 ≤ q < port)%Z → taken bind q)
     ∨ (out = ["Warning: Could not find a free port in range 3030-3039.";
               "Trying port 3030 anyway..."]
        ∧ port = 3030%Z
        ∧ ∀ q, (3030 ≤ q ≤ 3039)%Z → taken bind q)).
Proof.
  intros Hsockets. unfold startup_port, find_free_port.
  destruct (try_ports socket bind 3030 (seq 0 (Z.to_nat 10)))
    as [[p|]|e] eqn:Hfind; cbn [mbind result_bind]; [| |done].
  - intros [= <- <-].
    apply (try_ports_spec socket bind Hsockets) in Hfind
      as (Hp & Hbound & Hleast).
    split; [lia|]. left. split; [done|]. split; [done|].
    intros q Hq. apply Hleast. lia.
  - intros [= <- <-].
    pose proof (proj1 (try_ports_spec socket bind Hsockets _ _ _ _) Hfind)
      as Hall. cbn beta iota in Hall.
    split; [lia|]. right. split; [done|]. split; [done|].
    intros q Hq. apply Hall. lia.
Qed.

Lemma busy_startup :
  startup_port any_socket busy_bind = Ok ([], 3032%Z).
Proof. reflexivity. Qed.

Lemma startup_port_in_range_witness :
  (3030 ≤ 3032 ≤ 3039)%Z
  ∧ (([] = ([] : list string) ∧ busy_bind 3032 = Ok ()
      ∧ ∀ q, (3030 ≤ q < 3032)%Z → taken busy_bind q)
     ∨ ([] = ["Warning: Could not find a free port in range 3030-3039.";
              "Trying port 3030 anyway..."]
        ∧ 3032%Z = 3030%Z
        ∧ ∀ q, (3030 ≤ q ≤ 3039)%Z → taken busy_bind q)).
Proof.
  exact (startup_port_in_range any_socket busy_bind [] 3032 (λ i, eq_refl)
           busy_startup).
Defined.

(** ** The sensor channels share one stream of variates *)

Section stream.
Context {F : Type} `{Scalar F} {rng : Type}.
Variable legacy_gauss : rng → F * rng.

Lemma gauss_fill_add (n m : nat) (g : rng) :
  gauss_fill legacy_gauss (n + m) g
  = let draws := gauss_fill legacy_gauss n g in
    let draws' := gauss_fill legacy_gauss m draws.2 in
    (draws.1 ++ draws'.1, draws'.2).
Proof.
  revert g. induction n as [|n IH]; intros g.
  - cbn [Nat.add gauss_fill fst snd app].
    by destruct (gauss_fill legacy_gauss m g).
  - cbn [Nat.add gauss_fill]. destruct (legacy_gauss g) as [z g1].
    rewrite IH. destruct (gauss_fill legacy_gauss n g1) as [zs g2].
    cbn [fst snd]. by destruct (gauss_fill legacy_gauss m g2).
Qed.

Lemma np_random_normal_run (loc scale : F) (size : nat) (g : rng) :
  negb (f_isnan scale) && f_signbit scale = false →
  np_random_normal legacy_gauss loc scale size g
  = (Ok (map (λ z, f_add loc (f_mul scale z))
           (gauss_fill legacy_gauss size g).1),
     (gauss_fill legacy_gauss size g).2).
Proof.
  intros Hscale. unfold np_random_normal. rewrite Hscale.
  by destruct (gauss_fill legacy_gauss size g).
Qed.
End stream.

(** X16. The four sensor channels of chapter 1 share one stream of
    variates.  The generator is seeded once with 42; temperature takes the
    first 1000 standard-normal variates of that stream, vibration the next
    1000, then pressure, then current, each scaled by its own standard
    deviation, whatever the state of the generator was before. *)
Theorem chapter01_shares_the_stream {rng : Type}
    (init_genrand : Z → rng) (legacy_gauss : rng → float * rng)
    (np_sin : float → float) (g : rng) :
  let draws := gauss_fill legacy_gauss 4000 (init_genrand 42%Z) in
  let noise (first : nat) (scale : float) :=
    map (λ z, (0 + scale * z)%float) (take 1000 (drop first draws.1)) in
  chapter01_sensors init_genrand legacy_gauss np_sin g
  = (Ok {| temperature :=
             zip_with PrimFloat.add
               (map (λ t, (50 + 0.5 * np_sin t)%float) chapter01_time)
               (noise 0 two_tenths);
           vibration :=
             zip_with PrimFloat.add
               (map (λ t, (1 + tenth * np_sin (2 * t))%float) chapter01_time)
               (noise 1000 five_hundredths);
           pressure :=
             zip_with PrimFloat.add
               (map (λ t, (100 + 5 * np_sin (0.5 * t))%float) chapter01_time)
               (noise 2000 1%float);
           current :=
             zip_with PrimFloat.add
               (map (λ t, (10 + three_tenths * np_sin t)%float) chapter01_time)
               (noise 3000 tenth) |},
     draws.2).
Proof.
  intros draws noise.
  assert (Htime : length chapter01_time = 1000).
  { unfold chapter01_time, np_arange. by rewrite length_map, length_seq. }
  unfold chapter01_sensors, mbind, np_random_bind, np_random_seed.
  rewrite bool_decide_eq_true_2 by lia. rewrite Htime.
  rewrite !np_random_normal_run by reflexivity.
  cbn [mret np_random_ret].
  subst draws noise. cbn beta zeta.
  change 4000 with (1000 + (1000 + (1000 + 1000))).
  repeat (rewrite gauss_fill_add; cbn zeta). cbn [fst snd].
  set (g0 := init_genrand 42%Z).
  pose proof (gauss_fill_length legacy_gauss 1000 g0) as H0.
  set (d0 := gauss_fill legacy_gauss 1000 g0) in *.
  pose proof (gauss_fill_length legacy_gauss 1000 d0.2) as H1.
  set (d1 := gauss_fill legacy_gauss 1000 d0.2) in *.
  pose proof (gauss_fill_length legacy_gauss 1000 d1.2) as H2.
  set (d2 := gauss_fill legacy_gauss 1000 d1.2) in *.
  pose proof (gauss_fill_length legacy_gauss 1000 d2.2) as H3.
  set (d3 := gauss_fill legacy_gauss 1000 d2.2) in *.
  clearbody d0 d1 d2 d3.
  assert (Hs0 : take 1000 (drop 0 (d0.1 ++ d1.1 ++ d2.1 ++ d3.1)) = d0.1).
  { rewrite drop_0. by rewrite take_app_length' by done. }
  assert (Hs1 : take 1000 (drop 1000 (d0.1 ++ d1.1 ++ d2.1 ++ d3.1)) = d1.1).
  { rewrite drop_app_length' by done. by rewrite take_app_length' by done. }
  assert (Hs2 : take 1000 (drop 2000 (d0.1 ++ d1.1 ++ d2.1 ++ d3.1)) = d2.1).
  { change 2000 with (1000 + 1000).
    rewrite <- drop_drop, drop_app_length', drop_app_length' by done.
    by rewrite take_app_length' by done. }
  assert (Hs3 : take 1000 (drop 3000 (d0.1 ++ d1.1 ++ d2.1 ++ d3.1)) = d3.1).
  { change 3000 with (1000 + (1000 + 1000)).
    rewrite <- !drop_drop, !drop_app_length' by done.
    by rewrite take_ge by lia. }
  rewrite Hs0, Hs1, Hs2, Hs3. reflexivity.
Qed.

(** ** The example and the visualizer draw the same noisy sine *)

(** X17. The example script and the visualizer draw the same signals.
    On the same time array and with the same frequency, amplitude and
    noise level, [main] of [example.py] ([create_sine_wave],
    [create_noise] with its default seed, [add_signal_and_noise]) computes
    the clean and the noisy signal that [update_plots] computes for a sine
    wave with noise enabled ([generate_sine_wave], [add_noise] with seed
    42), with the same exception when the noise level is negative, and
    leaves the generator in the same state. *)
Theorem example_is_visualizer_sine {rng : Type}
    (init_genrand : Z → rng) (legacy_gauss : rng → float * rng)
    (np_sin : float → float)
    (time : list float) (frequency amplitude noise_level : float) (g : rng) :
  example_signals init_genrand legacy_gauss np_sin time frequency amplitude
    noise_level g
  = visualizer_sine_signals init_genrand legacy_gauss np_sin time frequency
      amplitude noise_level g.
Proof.
  unfold example_signals, visualizer_sine_signals, create_noise, np_pure.
  unfold mbind, np_random_bind, mret, np_random_ret.
  rewrite add_noise_run. unfold np_random_seed.
  destruct (bool_decide (0 ≤ 42 < 2 ^ 32)%Z); [|done].
  unfold np_random_normal.
  destruct (negb (f_isnan noise_level) && f_signbit noise_level); [done|].
  unfold generate_sine_wave, create_sine_wave. rewrite length_map.
  pose proof (gauss_fill_length legacy_gauss (length time) (init_genrand 42%Z))
    as Hlen.
  destruct (gauss_fill legacy_gauss (length time) (init_genrand 42%Z))
    as [zs g']. cbn [fst snd] in *.
  unfold add_signal_and_noise. rewrite !length_map, Hlen.
  rewrite decide_True by done. reflexivity.
Qed.

(** ** Multiplying by one *)

Section one.
Local Open Scope Z_scope.

Lemma shr_1_even p :
  shr_1 {| shr_m := Z.pos p~0; shr_r := false; shr_s := false |}
  = {| shr_m := Z.pos p; shr_r := false; shr_s := false |}.
Proof. reflexivity. Qed.

Lemma iter_shr_1_52 (m : positive) :
  SpecFloat.iter_pos shr_1 52
    {| shr_m := Z.pos (4503599627370496 * m); shr_r := false; shr_s := false |}
  = {| shr_m := Z.pos m; shr_r := false; shr_s := false |}.
Proof. reflexivity. Qed.

Lemma Zdigits2_shift_52 (m : positive) :
  Zdigits2 (Z.pos (4503599627370496 * m)) = Zdigits2 (Z.pos m) + 52.
Proof.
  cbn [Zdigits2]. simpl. rewrite !Pos2Z.inj_succ, Pos.mul_1_l. lia.
Qed.

(** Rounding [m * 2^52] at the exponent [e - 52] gives back the float
    [m * 2^e]. *)
Lemma binary_round_aux_shift_52 s m e :
  valid_binary (S754_finite s m e) = true →
  binary_round_aux prec emax s (Z.pos (4503599627370496 * m)) (e - 52)
    loc_Exact
  = S754_finite s m e.
Proof.
  unfold SpecFloat.valid_binary, bounded, canonical_mantissa.
  intros [Hc He]%andb_prop. apply Z.eqb_eq in Hc. apply Z.leb_le in He.
  unfold binary_round_aux, shr_fexp.
  rewrite Zdigits2_shift_52.
  replace (Zdigits2 (Z.pos m) + 52 + (e - 52)) with (Z.pos (digits2_pos m) + e)
    by (cbn [Zdigits2]; lia).
  rewrite Hc. replace (e - (e - 52)) with 52 by lia.
  cbn [shr]. cbn [shr_record_of_loc]. rewrite iter_shr_1_52.
  cbn [shr_m loc_of_shr_record shr_r shr_s round_nearest_even].
  replace (e - 52 + 52) with e by lia.
  cbn [Zdigits2]. rewrite Hc, Z.sub_diag. cbn [shr shr_record_of_loc shr_m].
  by rewrite (proj2 (Z.leb_le _ _) He).
Qed.
End one.

Section mul_one.
Local Open Scope float_scope.

Lemma Prim2SF_one : Prim2SF 1 = S754_finite false 4503599627370496 (-52).
Proof. reflexivity. Qed.

Lemma Prim2SF_minus_one :
  Prim2SF (-1) = S754_finite true 4503599627370496 (-52).
Proof. reflexivity. Qed.

(** Multiplying by one is exact. *)
Lemma mul_one_l (x : float) : 1 * x = x.
Proof.
  apply Prim2SF_inj. rewrite FloatAxioms.mul_spec, Prim2SF_one.
  pose proof (Prim2SF_valid x) as Hvalid.
  destruct (Prim2SF x) as [s|s| |s m e]; try done.
  unfold SF64mul. cbn [SFmul xorb].
  replace (-52 + e)%Z with (e - 52)%Z by lia.
  by apply binary_round_aux_shift_52.
Qed.
End mul_one.

Section mul_one_more.
Local Open Scope float_scope.

Lemma mul_one_r (x : float) : x * 1 = x.
Proof.
  apply Prim2SF_inj. rewrite FloatAxioms.mul_spec, Prim2SF_one.
  pose proof (Prim2SF_valid x) as Hvalid.
  destruct (Prim2SF x) as [s|s| |s m e]; try done; try by destruct s.
  unfold SF64mul. cbn [SFmul]. rewrite xorb_false_r, Pos.mul_comm.
  replace (e + -52)%Z with (e - 52)%Z by lia.
  by apply binary_round_aux_shift_52.
Qed.

(** Multiplying by minus one changes the sign and nothing else. *)
Lemma mul_minus_one_r (x : float) : x * -1 = - x.
Proof.
  apply Prim2SF_inj.
  rewrite FloatAxioms.mul_spec, FloatAxioms.opp_spec, Prim2SF_minus_one.
  pose proof (Prim2SF_valid x) as Hvalid.
  destruct (Prim2SF x) as [s|s| |s m e]; try done; try by destruct s.
  unfold SF64mul. cbn [SFmul SFopp]. rewrite xorb_true_r, Pos.mul_comm.
  replace (e + -52)%Z with (e - 52)%Z by lia.
  by apply binary_round_aux_shift_52.
Qed.
End mul_one_more.

(** ** The square wave *)

Section square_facts.
Local Open Scope float_scope.

Lemma unordered_nan (s : float) :
  (0 <? s) = false → (s <? 0) = false → (s =? 0) = false →
  Prim2SF s = S754_nan.
Proof.
  rewrite !FloatAxioms.ltb_spec, FloatAxioms.eqb_spec, Prim2SF_zero.
  unfold SFltb, SFeqb. by destruct (Prim2SF s) as [[]|[]| |[] m e].
Qed.
End square_facts.

(** X18. The square wave takes exact values: the amplitude where the sine
    is above zero and minus the amplitude where it is below, neither of
    them rounded; [amplitude * 0] where the sine is zero; NaN where the
    sine is NaN. *)
Theorem square_wave_values (np_sin : float → float) (t : list float)
    (frequency amplitude : float) :
  generate_square_wave np_sin t frequency amplitude
  = map (λ t,
           let s := np_sin (2 * np_pi * frequency * t)%float in
           if (0 <? s)%float then amplitude
           else if (s <? 0)%float then (- amplitude)%float
           else if (s =? 0)%float then (amplitude * 0)%float
           else nan) t.
Proof.
  unfold generate_square_wave. apply list_fmap_ext. intros _ x _.
  cbn zeta. unfold np_sign.
  destruct (0 <? np_sin (2 * np_pi * frequency * x))%float eqn:Hpos.
  { apply mul_one_r. }
  destruct (np_sin (2 * np_pi * frequency * x) <? 0)%float eqn:Hneg.
  { apply mul_minus_one_r. }
  destruct (np_sin (2 * np_pi * frequency * x) =? 0)%float eqn:Hzero; [done|].
  apply Prim2SF_inj. rewrite mul_nan; [done|].
  right. by apply unordered_nan.
Qed.

(** ** The frequency axis *)

Section axis.
Local Open Scope float_scope.

Lemma ltb_leb (x y : float) : (x <? y) = true → (x <=? y) = true.
Proof.
  rewrite FloatAxioms.ltb_spec, FloatAxioms.leb_spec. unfold SFltb, SFleb.
  by destruct (SFcompare (Prim2SF x) (Prim2SF y)) as [[]|].
Qed.
End axis.

(** X19. The upper limit of the frequency axis is clamped: whatever the
    frequency, NaN and the infinities included, it lies between 5 and 10;
    it is three times the frequency when that lies strictly between 5 and
    10. *)
Theorem frequency_axis_limit_clamped (frequency : float) :
  (5 <=? frequency_axis_limit frequency)%float = true
  ∧ (frequency_axis_limit frequency <=? 10)%float = true
  ∧ ((5 <? frequency * 3)%float = true → (frequency * 3 <? 10)%float = true →
     frequency_axis_limit frequency = (frequency * 3)%float).
Proof.
  unfold frequency_axis_limit, py_min, py_max.
  destruct (5 <? frequency * 3)%float eqn:Hlow.
  - destruct (frequency * 3 <? 10)%float eqn:Hhigh.
    + split; [by apply ltb_leb|]. split; [by apply ltb_leb|]. done.
    + split; [done|]. split; [done|]. done.
  - change (5 <? 10)%float with true. cbn iota.
    split; [done|]. split; [done|]. done.
Qed.

Lemma frequency_axis_limit_clamped_witness :
  (5 <=? frequency_axis_limit 2)%float = true
  ∧ (frequency_axis_limit 2 <=? 10)%float = true
  ∧ frequency_axis_limit 2 = (2 * 3)%float.
Proof.
  pose proof (frequency_axis_limit_clamped 2) as (Hlow & Hhigh & Hmid).
  split; [exact Hlow|]. split; [exact Hhigh|].
  apply Hmid; reflexivity.
Defined.

(** ** The channels of chapter 1 as syntheses *)

Section bind_facts.
Context {rng : Type}.

Lemma np_random_bind_ext {A B} (m : np_random rng A)
    (k k' : A → np_random rng B) (g : rng) :
  (∀ a g', k a g' = k' a g') → (m ≫= k) g = (m ≫= k') g.
Proof.
  intros Hk. unfold mbind, np_random_bind.
  destruct (m g) as [[a|e] g']; [apply Hk|done].
Qed.

Lemma channel_bind {B} (legacy_gauss : rng → float * rng)
    (np_sin : float → float) (base amplitude rate noise_std : float)
    (time : list float) (k : list float → np_random rng B) (g : rng) :
  (channel legacy_gauss np_sin base amplitude rate noise_std time ≫= k) g
  = (np_random_normal legacy_gauss 0%float noise_std (length time) ≫= λ noise,
     k (np_add (map (λ t, (base + amplitude * np_sin (rate * t))%float) time)
               noise)) g.
Proof.
  unfold channel, mbind, np_random_bind, mret, np_random_ret.
  by destruct (np_random_normal _ _ _ _ g) as [[noise|e] g'].
Qed.
Lemma channel_run (legacy_gauss : rng → float * rng)
    (np_sin : float → float) (base amplitude rate noise_std : float)
    (time : list float) (g : rng) :
  negb (f_isnan noise_std) && f_signbit noise_std = false →
  channel legacy_gauss np_sin base amplitude rate noise_std time g
  = (Ok (np_add
           (map (λ t, (base + amplitude * np_sin (rate * t))%float) time)
           (map (λ z, (0 + noise_std * z)%float)
              (gauss_fill legacy_gauss (length time) g).1)),
     (gauss_fill legacy_gauss (length time) g).2).
Proof.
  intros Hscale. unfold channel, mbind, np_random_bind.
  by rewrite np_random_normal_run.
Qed.
End bind_facts.

(** X20. Each of the four channel lines of chapter 1 is the channel
    expression [base + amplitude * sin(rate * t) + noise], temperature and
    current with the rate 1 that their lines leave out ([1 * t] is [t] in
    binary64).  The script returns, and its temperature channel is what
    [synthesize] returns for base 50, amplitude 0.5, rate 1, standard
    deviation 0.2 and seed 42 on the same timestamps. *)
Theorem chapter01_channels {rng : Type}
    (init_genrand : Z → rng) (legacy_gauss : rng → float * rng)
    (np_sin : float → float) (g : rng) :
  chapter01_sensors init_genrand legacy_gauss np_sin g
  = (np_random_seed init_genrand 42 ≫= λ _,
     temperature ← channel legacy_gauss np_sin 50%float 0.5%float 1%float
                     two_tenths chapter01_time;
     vibration ← channel legacy_gauss np_sin 1%float tenth 2%float
                   five_hundredths chapter01_time;
     pressure ← channel legacy_gauss np_sin 100%float 5%float 0.5%float
                  1%float chapter01_time;
     current ← channel legacy_gauss np_sin 10%float three_tenths 1%float
                 tenth chapter01_time;
     mret (Sensors temperature vibration pressure current)) g
  ∧ ∃ channels g',
      chapter01_sensors init_genrand legacy_gauss np_sin g = (Ok channels, g')
      ∧ (synthesize init_genrand legacy_gauss np_sin chapter01_time
           temperature_spec g).1
        = Ok (temperature channels).
Proof.
  assert (Hrate' : ∀ (base amplitude : float) (time : list float),
    map (λ t, (base + amplitude * np_sin (1 * t))%float) time
    = map (λ t, (base + amplitude * np_sin t)%float) time).
  { intros base amplitude time. apply list_fmap_ext. intros _ t _.
    by rewrite mul_one_l. }
  assert (Hrun : chapter01_sensors init_genrand legacy_gauss np_sin g
    = (np_random_seed init_genrand 42 ≫= λ _,
       temperature ← channel legacy_gauss np_sin 50%float 0.5%float 1%float
                       two_tenths chapter01_time;
       vibration ← channel legacy_gauss np_sin 1%float tenth 2%float
                     five_hundredths chapter01_time;
       pressure ← channel legacy_gauss np_sin 100%float 5%float 0.5%float
                    1%float chapter01_time;
       current ← channel legacy_gauss np_sin 10%float three_tenths 1%float
                   tenth chapter01_time;
       mret (Sensors temperature vibration pressure current)) g).
  { unfold chapter01_sensors. apply np_random_bind_ext. intros _ g1.
    rewrite channel_bind, Hrate'. apply np_random_bind_ext. intros n1 g2.
    cbn zeta. rewrite channel_bind. apply np_random_bind_ext. intros n2 g3.
    cbn zeta. rewrite channel_bind. apply np_random_bind_ext. intros n3 g4.
    cbn zeta. rewrite channel_bind, Hrate'. apply np_random_bind_ext.
    intros n4 g5. reflexivity. }
  split; [exact Hrun|].
  rewrite Hrun. unfold synthesize, temperature_spec.
  cbn [seed base amplitude angular_rate noise_std].
  unfold mbind, np_random_bind, np_random_seed.
  rewrite bool_decide_eq_true_2 by lia.
  repeat (rewrite channel_run by reflexivity; cbn beta iota).
  cbn [mret np_random_ret fst snd]. eexists _, _. split; reflexivity.
Qed.

(** ** [add_noise] without a seed *)

(** X21. Without a seed [add_noise] goes on in the stream of the global
    generator: two calls in a row, with a noise level that is not
    negative, use the variates one call of [len(signal) + len(signal')]
    draws would, the first call the first [len(signal)] of them and the
    second call the rest; each result has the length of its signal. *)
Theorem add_noise_unseeded_continues {F : Type} `{Scalar F} {rng : Type}
    (init_genrand : Z → rng) (legacy_gauss : rng → F * rng)
    (signal signal' : list F) (noise_level : F) (g : rng) :
  negb (f_isnan noise_level) && f_signbit noise_level = false →
  let draws :=
    gauss_fill legacy_gauss (length signal + length signal') g in
  let noise zs := map (λ z, f_add f_zero (f_mul noise_level z)) zs in
  let noisy := zip_with f_add signal (noise (take (length signal) draws.1)) in
  let noisy' :=
    zip_with f_add signal' (noise (drop (length signal) draws.1)) in
  (noisy_signal ← add_noise init_genrand legacy_gauss signal noise_level None;
   noisy_signal' ← add_noise init_genrand legacy_gauss signal' noise_level
                     None;
   mret (noisy_signal, noisy_signal')) g
  = (Ok (noisy, noisy'), draws.2)
  ∧ length noisy = length signal ∧ length noisy' = length signal'.
Proof.
  intros Hscale draws noise noisy noisy'.
  subst draws noise noisy noisy'. cbn zeta.
  rewrite gauss_fill_add. cbn zeta. cbn [fst snd].
  pose proof (gauss_fill_length legacy_gauss (length signal) g) as Hlen.
  pose proof (gauss_fill_length legacy_gauss (length signal')
                (gauss_fill legacy_gauss (length signal) g).2) as Hlen'.
  rewrite take_app_length', drop_app_length' by done.
  split.
  - unfold add_noise, mbind, np_random_bind, mret, np_random_ret.
    rewrite (np_random_normal_run legacy_gauss f_zero noise_level
               (length signal) g Hscale).
    cbn beta iota.
    rewrite (np_random_normal_run legacy_gauss f_zero noise_level
               (length signal') _ Hscale).
    reflexivity.
  - rewrite !length_zip_with, !length_map, Hlen, Hlen'. lia.
Qed.

Lemma add_noise_unseeded_continues_witness :
  let draws :=
    gauss_fill counter_gauss
      (length [1%float; 2%float] + length [3%float]) 7%Z in
  let noise zs := map (λ z, f_add f_zero (f_mul 0.5%float z)) zs in
  let noisy :=
    zip_with f_add [1%float; 2%float]
      (noise (take (length [1%float; 2%float]) draws.1)) in
  let noisy' :=
    zip_with f_add [3%float]
      (noise (drop (length [1%float; 2%float]) draws.1)) in
  (noisy_signal ← add_noise counter_init counter_gauss [1%float; 2%float]
                    0.5%float None;
   noisy_signal' ← add_noise counter_init counter_gauss [3%float] 0.5%float
                     None;
   mret (noisy_signal, noisy_signal')) 7%Z
  = (Ok (noisy, noisy'), draws.2)
  ∧ length noisy = length [1%float; 2%float]
  ∧ length noisy' = length [3%float].
Proof.
  apply (add_noise_unseeded_continues counter_init counter_gauss
           [1%float; 2%float] [3%float] 0.5%float 7%Z).
  reflexivity.
Defined.

(** ** The report on the training data *)

(** X22. What the script reports after loading.  When the loader returns
    without a single sample (no class directory holds a [*.csv] entry),
    no error about missing samples is raised: the script prints the shapes
    [(0,)] and then ends with an [IndexError] at [X_train.shape[1]].  With
    at least one sample it prints the shape [(n, 18)], 18 features per
    sample, 4 classes with their sorted names and the class summary, and
    goes on. *)
Theorem training_report_outcome fs out X y names :
  load_csv_data_with_features fs "train" = (out, Ok (X, y, names)) →
  (X = [] →
   training_report fs
   = ([rule; "Loading Training Data and Extracting Features"; rule]
      ++ out ++ [""; "Feature matrix shape: (0,)"; "Labels shape: (0,)"],
      RaisesIndexError "tuple index out of range"))
  ∧ (X ≠ [] →
     training_report fs
     = ([rule; "Loading Training Data and Extracting Features"; rule]
        ++ out
        ++ [""; "Feature matrix shape: (" +:+ pretty (length X) +:+ ", 18)";
            "Labels shape: (" +:+ pretty (length y) +:+ ",)";
            "Number of features per sample: 18";
            "Number of classes: 4";
            "Classes: ['bearing', 'imbalance', 'misalignment', 'normal']"]
        ++ class_summary y names,
        GoesOn)).
Proof.
  intros Hrun.
  destruct (loader_returns _ _ _ _ _ _ Hrun) as (entries & Hroot & HX & Hy).
  pose proof (loader_names _ _ _ _ _ _ Hrun) as ->.
  assert (Hlen : length y = length X).
  { rewrite Hy, length_fmap. by eapply Forall2_length. }
  assert (H18 : pretty 18 = "18") by (vm_compute; reflexivity).
  assert (H4 : pretty 4 = "4") by (vm_compute; reflexivity).
  unfold training_report. rewrite Hrun. split.
  - intros ->. destruct y; [|done]. unfold vector_shape.
    cbn [matrix_shape length lookup list_lookup tuple_repr].
    rewrite pretty_zero, <- !app_assoc. reflexivity.
  - intros Hne. destruct X as [|row X]; [done|].
    assert (Hrow : length row = 18).
    { apply Forall2_cons_inv_r in HX as (s & samples & Hs & _ & _).
      destruct (features_of_file_inv _ _ Hs) as (rs & _ & _ & ->).
      apply feature_vector_values_length. }
    unfold vector_shape.
    cbn [matrix_shape lookup list_lookup tuple_repr list_repr foldr].
    rewrite Hrow. cbn [length]. rewrite H18, H4, <- !app_assoc. reflexivity.
Qed.

Lemma empty_class_run :
  load_csv_data_with_features empty_class_fs "train"
  = (["Extracted features from 0 samples in misalignment condition"],
     Ok ([], [], ["bearing"; "imbalance"; "misalignment"; "normal"])).
Proof. vm_compute. reflexivity. Qed.

Lemma scenario_has_samples :
  [feature_vector (values [xyz 4]%float);
   feature_vector (values [xyz 3]%float);
   feature_vector (values [xyz 1; xyz 2]%float)] ≠ [].
Proof. discriminate. Qed.

Lemma training_report_outcome_witness :
  training_report empty_class_fs
  = ([rule; "Loading Training Data and Extracting Features"; rule]
     ++ ["Extracted features from 0 samples in misalignment condition"]
     ++ [""; "Feature matrix shape: (0,)"; "Labels shape: (0,)"],
     RaisesIndexError "tuple index out of range")
  ∧ training_report scenario_fs
    = ([rule; "Loading Training Data and Extracting Features"; rule]
       ++ ["Extracted features from 1 samples in bearing condition";
           "Extracted features from 0 samples in misalignment condition";
           "Extracted features from 2 samples in normal condition";
           "Warning: Unknown condition 'unknown_condition', skipping..."]
       ++ [""; "Feature matrix shape: ("
                 +:+ pretty (length
                       [feature_vector (values [xyz 4]%float);
                        feature_vector (values [xyz 3]%float);
                        feature_vector (values [xyz 1; xyz 2]%float)])
                 +:+ ", 18)";
           "Labels shape: (" +:+ pretty (length [1; 0; 0]) +:+ ",)";
           "Number of features per sample: 18";
           "Number of classes: 4";
           "Classes: ['bearing', 'imbalance', 'misalignment', 'normal']"]
       ++ class_summary [1; 0; 0]
            ["bearing"; "imbalance"; "misalignment"; "normal"],
       GoesOn).
Proof.
  split.
  - exact (proj1 (training_report_outcome _ _ _ _ _ empty_class_run) eq_refl).
  - exact (proj2 (training_report_outcome _ _ _ _ _ scenario_run)
             scenario_has_samples).
Defined.
